(** * Filejet SDK: URL mutation builder, placeholder scheduling and image widget

    A shallow embedding of the TypeScript sources of [@filejet/sdk]
    ([filejetImg.ts], [helpers.ts], [react/cache.tsx], [react/thumbhash.tsx]
    and the two revisions of [react/img.tsx]) together with the properties
    the specification states about them.

    Conventions of the embedding:
    - a JavaScript [number] is an IEEE 754 binary64 value, the kernel's
      primitive [float]: products and quotients are rounded as the platform
      rounds them, and [NaN], the infinities and the two zeros are values;
    - a length in pixels that the browser measures, and a rectangle of the
      layout, is the exact rational value ([Q]) of such a number, which
      comparisons and the products by 0.75 and 1.5 keep exact for the
      sizes a layout has;
    - a JavaScript string is a [string] of 8-bit code units, which is the
      domain on which [btoa] is defined;
    - [T | undefined] is [option T];
    - a function that may [throw] returns a [result];
    - React state and refs are fields of an explicit state record, and the
      callbacks the browser invokes are events of a step function. *)

From Stdlib Require Import ZArith NArith QArith Floats.
From Stdlib Require Import String Ascii List Bool Lia Lqa DecimalString.
Import ListNotations.

Open Scope string_scope.

Set Warnings "-inexact-float".

(** ** JavaScript primitives used by the sources *)

Module Js.

(** Outcome of a call that may throw. *)
Inductive error : Type :=
| InvalidDimensions   (* Error('Invalid width or height!') *)
| InvalidURL.         (* TypeError of the URL constructor *)

Inductive result (A : Type) : Type :=
| Ok (a : A)
| Throw (e : error).
Arguments Ok {A} a.
Arguments Throw {A} e.

Definition bind {A B} (r : result A) (k : A -> result B) : result B :=
  match r with
  | Ok a => k a
  | Throw e => Throw e
  end.

(** The integer [(-1)^s * m] of a sign bit and a mantissa. *)
Definition signed (s : bool) (m : positive) : Z := if s then Z.neg m else Z.pos m.

(** The number of an integer, which is exact up to 2^53. *)
Definition ofInteger (n : Z) : float := SF2Prim (binary_normalize prec emax n 0 false).

(** [Math.round(x)].  [NaN], the infinities and the zeros are returned
    as they are, and so is [x = (-1)^s * m * 2^e] with [0 <= e], which is
    an integer.  With [e < 0] the result is the integer [floor(x + 1/2)],
    computed on the integers so that the sum is not rounded: it is [x]
    itself when [x] is an integer, and a tie goes towards +infinity.  The
    result is [-0] for [-0.5 <= x < 0]. *)
Definition Math_round (x : float) : float :=
  match Prim2SF x with
  | S754_finite s m e =>
      if (0 <=? e)%Z then x
      else
        let n := Z.shiftr (signed s m + 2 ^ (- e - 1)) (- e) in
        if (n =? 0)%Z then (if s then (-0)%float else 0%float) else ofInteger n
  | _ => x
  end.

(** The integer a number is, when it is one. *)
Definition integerOf (x : float) : option Z :=
  match Prim2SF x with
  | S754_zero _ => Some 0%Z
  | S754_finite s m e =>
      if (0 <=? e)%Z then Some (signed s m * 2 ^ e)%Z
      else if (Z.pos m mod 2 ^ (- e) =? 0)%Z then Some (signed s m / 2 ^ (- e))%Z
      else None
  | _ => None
  end.

(** The decimal digits of an integer, after [-] when it is negative. *)
Definition decimal (n : Z) : string := NilZero.string_of_int (Z.to_int n).

(** A number interpolated in a template literal.  An integer below 2^53
    in magnitude is written with all its decimal digits, both zeros as
    [0].  Every other number (a fraction, a magnitude from 2^53 on, where
    the shortest digits that identify the number are written and the
    exponent form starts at 1e21, [NaN], an infinity) is written as the
    platform's [Number::toString] writes it, which is the argument
    [Number_toString]. *)
Definition numberToString (Number_toString : float -> string) (x : float) : string :=
  match integerOf x with
  | Some n => if (Z.abs n <? 2 ^ 53)%Z then decimal n else Number_toString x
  | None => Number_toString x
  end.

(** The exact value of a number. *)
Inductive Value : Type :=
| Finite (q : Q)
| PlusInfinity
| MinusInfinity
| NaN.

Definition valueOf (x : float) : Value :=
  match Prim2SF x with
  | S754_zero _ => Finite 0
  | S754_infinity s => if s then MinusInfinity else PlusInfinity
  | S754_nan => NaN
  | S754_finite s m e =>
      if (0 <=? e)%Z then Finite (inject_Z (signed s m * 2 ^ e))
      else Finite (Qred (Qmake (signed s m) (Z.to_pos (2 ^ (- e)))))
  end.

(** The number of an exact value: the value itself when it is a binary64
    value, the quotient of numerator and denominator as the platform
    rounds it otherwise. *)
Definition ofRational (q : Q) : float :=
  (ofInteger (Qnum q) / ofInteger (Z.pos (Qden q)))%float.

(** [c * x], [y > x] and [y < x] on exact values, for a rational [c], as
    IEEE 754 has them on the infinities and on [NaN]. *)
Definition times (c : Q) (x : Value) : Value :=
  match x with
  | Finite q => Finite (c * q)
  | PlusInfinity =>
      match Qnum c with
      | Z.pos _ => PlusInfinity
      | Z.neg _ => MinusInfinity
      | Z0 => NaN
      end
  | MinusInfinity =>
      match Qnum c with
      | Z.pos _ => MinusInfinity
      | Z.neg _ => PlusInfinity
      | Z0 => NaN
      end
  | NaN => NaN
  end.

Definition gt (y : Q) (x : Value) : bool :=
  match x with
  | Finite q => negb (Qle_bool y q)
  | MinusInfinity => true
  | PlusInfinity | NaN => false
  end.

Definition lt (y : Q) (x : Value) : bool :=
  match x with
  | Finite q => negb (Qle_bool q y)
  | PlusInfinity => true
  | MinusInfinity | NaN => false
  end.

(** White space and line terminators removed by [String.prototype.trim],
    restricted to 8-bit code units: TAB, LF, VT, FF, CR, SP and NBSP. *)
Definition isWhiteSpace (c : ascii) : bool :=
  let n := N_of_ascii c in
  ((9 <=? n) && (n <=? 13) || (n =? 32) || (n =? 160))%N.

Definition isEmpty (s : string) : bool :=
  match s with
  | EmptyString => true
  | String _ _ => false
  end.

Fixpoint trimStart (s : string) : string :=
  match s with
  | EmptyString => EmptyString
  | String c r => if isWhiteSpace c then trimStart r else s
  end.

Fixpoint trimEnd (s : string) : string :=
  match s with
  | EmptyString => EmptyString
  | String c r =>
      let r' := trimEnd r in
      if isWhiteSpace c && isEmpty r' then EmptyString else String c r'
  end.

(** [s.trim()] *)
Definition trim (s : string) : string := trimEnd (trimStart s).

(** [s.startsWith(prefix)] *)
Definition startsWith (s prefix : string) : bool := String.prefix prefix s.

(** [parts.join(sep)] *)
Fixpoint join (sep : string) (parts : list string) : string :=
  match parts with
  | [] => EmptyString
  | [p] => p
  | p :: rest => p ++ sep ++ join sep rest
  end.

(** [s.split(c)] for a one-character separator: never an empty array. *)
Fixpoint split (c : ascii) (s : string) : list string :=
  match s with
  | EmptyString => [EmptyString]
  | String d r =>
      if Ascii.eqb d c then EmptyString :: split c r
      else match split c r with
           | [] => [String d EmptyString]
           | p :: ps => String d p :: ps
           end
  end.

(** [s.replace(/c/g, d)] for single characters [c] and [d]. *)
Fixpoint replaceAll (c d : ascii) (s : string) : string :=
  match s with
  | EmptyString => EmptyString
  | String x r => String (if Ascii.eqb x c then d else x) (replaceAll c d r)
  end.

(** [s.replace(/c/g, '')] *)
Fixpoint removeAll (c : ascii) (s : string) : string :=
  match s with
  | EmptyString => EmptyString
  | String x r => if Ascii.eqb x c then removeAll c r else String x (removeAll c r)
  end.

(** Interpolation of a [string | undefined] in a template literal. *)
Definition interpolate (s : option string) : string :=
  match s with
  | Some t => t
  | None => "undefined"
  end.

(** No clause of a comma-separated text is empty. *)
Definition noEmptyClause (s : string) : bool :=
  forallb (fun clause => negb (isEmpty clause)) (split "," s).

End Js.

(** ** Base64 as implemented by the platform's [btoa] and [atob] *)

Module Base64.

Definition alphabet : string :=
  "ABCDEFGHIJKLMNOPQRSTUVWXYZabcdefghijklmnopqrstuvwxyz0123456789+/".

Definition pad : ascii := "="%char.

(** The character of a 6-bit value. *)
Definition encodeSextet (n : N) : ascii :=
  match String.get (N.to_nat n) alphabet with
  | Some c => c
  | None => pad
  end.

(** The 6-bit value of a character of the alphabet. *)
Definition decodeSextet (c : ascii) : option N :=
  let n := N_of_ascii c in
  if ((65 <=? n) && (n <=? 90))%N then Some (n - 65)%N
  else if ((97 <=? n) && (n <=? 122))%N then Some (n - 71)%N
  else if ((48 <=? n) && (n <=? 57))%N then Some (n + 4)%N
  else if (n =? 43)%N then Some 62%N
  else if (n =? 47)%N then Some 63%N
  else None.

(** The sextets of a byte string, three bytes giving four sextets; a last
    group of one or two bytes gives two or three. *)
Fixpoint sextetsOfBytes (s : string) : list N :=
  match s with
  | EmptyString => []
  | String a EmptyString =>
      let x := N_of_ascii a in
      [N.shiftr x 2; N.shiftl (N.land x 3) 4]
  | String a (String b EmptyString) =>
      let x := N_of_ascii a in
      let y := N_of_ascii b in
      [N.shiftr x 2;
       N.lor (N.shiftl (N.land x 3) 4) (N.shiftr y 4);
       N.shiftl (N.land y 15) 2]
  | String a (String b (String c rest)) =>
      let x := N_of_ascii a in
      let y := N_of_ascii b in
      let z := N_of_ascii c in
      N.shiftr x 2
        :: N.lor (N.shiftl (N.land x 3) 4) (N.shiftr y 4)
        :: N.lor (N.shiftl (N.land y 15) 2) (N.shiftr z 6)
        :: N.land z 63
        :: sextetsOfBytes rest
  end.

Fixpoint stringOfSextets (l : list N) : string :=
  match l with
  | [] => EmptyString
  | n :: r => String (encodeSextet n) (stringOfSextets r)
  end.

(** Padding that completes a group of four characters. *)
Definition padding (len : nat) : string :=
  match Nat.modulo len 4 with
  | 2%nat => "=="
  | 3%nat => "="
  | _ => EmptyString
  end.

(** [btoa(s)] on a string of 8-bit code units. *)
Definition btoa (s : string) : string :=
  let l := sextetsOfBytes s in
  stringOfSextets l ++ padding (List.length l).

(** ASCII white space ignored by [atob]: TAB, LF, FF, CR and SP. *)
Definition isAsciiWhitespace (c : ascii) : bool :=
  let n := N_of_ascii c in
  ((n =? 9) || (n =? 10) || (n =? 12) || (n =? 13) || (n =? 32))%N.

Fixpoint removeWhitespace (s : string) : string :=
  match s with
  | EmptyString => EmptyString
  | String c r =>
      if isAsciiWhitespace c then removeWhitespace r
      else String c (removeWhitespace r)
  end.

(** One or two trailing [=] are removed from a string whose length is a
    multiple of four. *)
Fixpoint stripPadding (s : string) : string :=
  match s with
  | EmptyString => EmptyString
  | String c r =>
      if Ascii.eqb c pad &&
         (String.eqb r EmptyString || String.eqb r "=")
      then EmptyString
      else if String.eqb r "==" then String c EmptyString
      else String c (stripPadding r)
  end.

Fixpoint sextetsOfString (s : string) : option (list N) :=
  match s with
  | EmptyString => Some []
  | String c r =>
      match decodeSextet c, sextetsOfString r with
      | Some n, Some l => Some (n :: l)
      | _, _ => None
      end
  end.

Definition byte (n : N) : ascii := ascii_of_N (N.land n 255).

(** Four sextets give three bytes; a last group of two or three sextets
    gives one or two bytes, its spare low bits being discarded. *)
Fixpoint bytesOfSextets (l : list N) : string :=
  match l with
  | p :: q :: r :: s :: rest =>
      String (byte (N.lor (N.shiftl p 2) (N.shiftr q 4)))
        (String (byte (N.lor (N.shiftl q 4) (N.shiftr r 2)))
           (String (byte (N.lor (N.shiftl r 6) s))
              (bytesOfSextets rest)))
  | [p; q; r] =>
      String (byte (N.lor (N.shiftl p 2) (N.shiftr q 4)))
        (String (byte (N.lor (N.shiftl q 4) (N.shiftr r 2))) EmptyString)
  | [p; q] =>
      String (byte (N.lor (N.shiftl p 2) (N.shiftr q 4))) EmptyString
  | _ => EmptyString
  end.

(** [atob(data)] (forgiving base64 decode); [None] stands for the
    [InvalidCharacterError] it throws. *)
Definition atob (data : string) : option string :=
  let d := removeWhitespace data in
  let d := if Nat.eqb (Nat.modulo (String.length d) 4) 0 then stripPadding d else d in
  if Nat.eqb (Nat.modulo (String.length d) 4) 1 then None
  else match sextetsOfString d with
       | Some l => Some (bytesOfSextets l)
       | None => None
       end.

(** *** Vocabulary of the properties *)

(** The character [btoa(...).replace(/\+/g, '-').replace(/\//g, '_')]
    writes for a sextet. *)
Definition urlChar (n : N) : ascii :=
  let e := encodeSextet n in
  let e := if Ascii.eqb e "+" then "-"%char else e in
  if Ascii.eqb e "/" then "_"%char else e.

(** The character [replace(/-/g, '+').replace(/_/g, '/')] gives back. *)
Definition plainChar (c : ascii) : ascii :=
  let c := if Ascii.eqb c "-" then "+"%char else c in
  if Ascii.eqb c "_" then "/"%char else c.

(** The characters of RFC 4648 section 5: letters, digits, [-] and [_]. *)
Definition urlSafe (c : ascii) : bool :=
  let n := N_of_ascii c in
  ((65 <=? n) && (n <=? 90) || (97 <=? n) && (n <=? 122)
   || (48 <=? n) && (n <=? 57) || (n =? 45) || (n =? 95))%N.

Fixpoint allChars (P : ascii -> bool) (s : string) : bool :=
  match s with
  | EmptyString => true
  | String c r => P c && allChars P r
  end.

Fixpoint stringOfUrlSextets (l : list N) : string :=
  match l with
  | [] => EmptyString
  | n :: r => String (urlChar n) (stringOfUrlSextets r)
  end.

(** [value + '='.repeat((4 - value.length % 4) % 4)] *)
Definition restorePadding (s : string) : string := s ++ padding (String.length s).

(** The numbers below [k], for checks by enumeration. *)
Definition below (k : nat) : list N := map N.of_nat (seq 0 k).

(** What the properties need of one sextet, as a single test. *)
Definition sextetCheck (n : N) : bool :=
  negb (Ascii.eqb (encodeSextet n) pad)
  && negb (Ascii.eqb (urlChar n) pad)
  && urlSafe (urlChar n)
  && Ascii.eqb (plainChar (urlChar n)) (encodeSextet n)
  && negb (isAsciiWhitespace (encodeSextet n))
  && match decodeSextet (encodeSextet n) with
     | Some m => N.eqb m n
     | None => false
     end.

End Base64.

(** ** [helpers.ts] *)

Module Helpers.

(** [isNotNil]: true when the value is neither [null] nor [undefined]. *)
Definition isNotNil {A} (value : option A) : bool :=
  match value with
  | Some _ => true
  | None => false
  end.

(** [array.filter(isNotNil)], which also narrows the element type. *)
Fixpoint filterNotNil {A} (l : list (option A)) : list A :=
  match l with
  | [] => []
  | Some a :: r => a :: filterNotNil r
  | None :: r => filterNotNil r
  end.

(** [btoa(value).replace(/\+/g, '-').replace(/\//g, '_').replace(/=/g, '')] *)
Definition base64UrlEncode (value : string) : string :=
  Js.removeAll "="
    (Js.replaceAll "/" "_"
       (Js.replaceAll "+" "-" (Base64.btoa value))).

(** [atob(value.replace(/-/g, '+').replace(/_/g, '/'))] *)
Definition base64UrlDecode (value : string) : option string :=
  Base64.atob (Js.replaceAll "_" "/" (Js.replaceAll "-" "+" value)).

End Helpers.

(** ** [filejetImg.ts] *)

Module FilejetImg.
Import Js.

Inductive ImgObjectFit : Type := contain | cover.

Record FilejetImgProps : Type := {
  src : string;
  width : option float;
  height : option float;
  dpiScale : list float;
  fit : ImgObjectFit;
  backgroundColor : string;
  mutation : option string;
  filejetDomain : string
}.

Record HtmlImgProps : Type := {
  html_src : string;
  html_srcSet : option string;
  html_width : option float;
  html_height : option float
}.

Section Platform.

(** [new URL(src, document.baseURI).href]; [None] when the constructor
    throws a [TypeError]. *)
Variable URL_href : string -> option string.

(** [Number::toString] of the platform, for the numbers that are not
    integers below 2^53. *)
Variable Number_toString : float -> string.

(** [r(dimension * scale)] interpolated in a template literal. *)
Definition scaled (dimension scale : float) : string :=
  numberToString Number_toString (Math_round (dimension * scale)%float).

Definition resize (width height : option float) (scale : float)
    (fit : ImgObjectFit) (backgroundColor : string) : result (option string) :=
  match width, height with
  | None, None => Ok None
  | _, _ =>
      match fit with
      | cover =>
          match width, height with
          | Some w, Some h =>
              Ok (Some (join ","
                [ "resize_" ++ scaled w scale ++ "x" ++ scaled h scale ++ "min";
                  "fit_" ++ scaled w scale ++ "x" ++ scaled h scale;
                  "bg_" ++ backgroundColor ]))
          | Some w, None => Ok (Some ("resize_" ++ scaled w scale ++ "min"))
          | None, Some h => Ok (Some ("resize_x" ++ scaled h scale ++ "min"))
          | None, None => Throw InvalidDimensions
          end
      | contain =>
          match width, height with
          | Some w, Some h =>
              Ok (Some ("resize_" ++ scaled w scale ++ "x" ++ scaled h scale ++ "shrink"))
          | Some w, None => Ok (Some ("resize_" ++ scaled w scale ++ "shrink"))
          | None, Some h => Ok (Some ("resize_x" ++ scaled h scale ++ "shrink"))
          | None, None => Throw InvalidDimensions
          end
      end
  end.

Definition combineMutations (mutations : list (option string)) : option string :=
  match mutations with
  | [] => None
  | _ => Some (join "," (map trim (Helpers.filterNotNil mutations)))
  end.

(** The prefixes that mark [src] as the URL of an external image. *)
Definition externalPrefixes : list string := ["https://"; "./"; "../"; "/"; "//"].

Definition isExternal (src : string) : bool :=
  existsb (fun prefix => startsWith src prefix) externalPrefixes.

(** The local [mutation] of [imgSrc]. *)
Definition imgSrc_mutation (props : FilejetImgProps) (scale : float)
    : result (option string) :=
  bind (resize (width props) (height props) scale (fit props) (backgroundColor props))
    (fun resized => Ok (combineMutations [resized; mutation props; Some "auto"])).

Definition imgSrc (props : FilejetImgProps) (scale : float) : result string :=
  bind (imgSrc_mutation props scale)
    (fun mutation =>
       if isExternal (src props) then
         match URL_href (src props) with
         | Some href =>
             let externalId := "@ext_" ++ Helpers.base64UrlEncode href in
             Ok ("https://" ++ filejetDomain props ++ "/" ++ externalId
                   ++ "/" ++ interpolate mutation)
         | None => Throw InvalidURL
         end
       else
         Ok ("https://" ++ filejetDomain props ++ "/" ++ src props
               ++ "/" ++ interpolate mutation)).

(** [props.dpiScale.map(scale => `${imgSrc(scale)} ${scale}x`)] *)
Fixpoint srcSetEntries (props : FilejetImgProps) (scales : list float)
    : result (list string) :=
  match scales with
  | [] => Ok []
  | scale :: rest =>
      bind (imgSrc props scale) (fun url =>
      bind (srcSetEntries props rest) (fun entries =>
      Ok ((url ++ " " ++ numberToString Number_toString scale ++ "x") :: entries)))
  end.

Definition filejetImg (props : FilejetImgProps) : result HtmlImgProps :=
  bind (imgSrc props 1) (fun primary =>
  bind (srcSetEntries props (dpiScale props)) (fun entries =>
  Ok {| html_src := primary;
        html_srcSet := Some (join ", " entries);
        html_width := width props;
        html_height := height props |})).

End Platform.

(** The rest of the mutation string after the resize clauses. *)
Definition remaining (extra : option string) : string :=
  match extra with
  | Some e => "," ++ trim e ++ ",auto"
  | None => ",auto"
  end.

End FilejetImg.

(** ** [react/cache.tsx] *)

Module Cache.

(** [interface Cache<string, string>]: a store of type [C]; [get] returns
    the store as well, since a lookup may change it. *)
Class Cache (C : Type) : Type := {
  has : C -> string -> bool;
  get : C -> string -> option string * C;
  set : C -> string -> string -> C
}.

(** [quick-lru], an npm dependency whose code is not part of the
    repository. *)
Module QuickLRU.

(** Modelled from the spec: the store behind [LruCache] is the class
    [QuickLRU] of the [quick-lru] package, which is missing; the spec
    describes it as a key-value store whose capacity is fixed at
    construction.  The entries are kept most recently used first. *)
Record t : Type := {
  maxSize : nat;
  entries : list (string * string)
}.

(** Modelled from the spec: [new QuickLRU({ maxSize })], missing with the
    package, builds an empty store of that capacity. *)
Definition new (maxSize : nat) : t :=
  {| maxSize := maxSize; entries := [] |}.

(** The value stored under [k]. *)
Definition lookup (k : string) (l : list (string * string)) : option string :=
  match find (fun e => String.eqb (fst e) k) l with
  | Some e => Some (snd e)
  | None => None
  end.

(** The entries other than the one of [k]. *)
Definition without (k : string) (l : list (string * string)) : list (string * string) :=
  filter (fun e => negb (String.eqb (fst e) k)) l.

(** Modelled from the spec: [has], missing with the package, tells whether
    the key is stored and does not count as a use. *)
Definition has (q : t) (k : string) : bool :=
  existsb (fun e => String.eqb (fst e) k) (entries q).

(** Modelled from the spec: [get], missing with the package, returns the
    value or nothing, and updates the recency of the key. *)
Definition get (q : t) (k : string) : option string * t :=
  match lookup k (entries q) with
  | Some v =>
      (Some v, {| maxSize := maxSize q; entries := (k, v) :: without k (entries q) |})
  | None => (None, q)
  end.

(** Modelled from the spec: [set], missing with the package, stores the
    value, updates the recency of the key and, beyond capacity, evicts the
    least recently used entry. *)
Definition set (q : t) (k v : string) : t :=
  let es := (k, v) :: without k (entries q) in
  {| maxSize := maxSize q;
     entries := if Nat.ltb (maxSize q) (List.length es) then removelast es else es |}.

End QuickLRU.

Record LruCacheProps : Type := { props_maxSize : nat }.

(** [class LruCache]: the private field [cache]. *)
Record LruCache : Type := { cache : QuickLRU.t }.

Definition LruCache_new (props : LruCacheProps) : LruCache :=
  {| cache := QuickLRU.new (props_maxSize props) |}.

Definition LruCache_has (this : LruCache) (key : string) : bool :=
  QuickLRU.has (cache this) key.

Definition LruCache_get (this : LruCache) (key : string) : option string * LruCache :=
  let (value, q) := QuickLRU.get (cache this) key in
  (value, {| cache := q |}).

Definition LruCache_set (this : LruCache) (key value : string) : LruCache :=
  {| cache := QuickLRU.set (cache this) key value |}.

#[export] Instance LruCache_Cache : Cache LruCache := {
  has := LruCache_has;
  get := LruCache_get;
  set := LruCache_set
}.

(** A sequence of [set] calls, in order. *)
Definition setAll {C} `{Cache C} (c : C) (kvs : list (string * string)) : C :=
  fold_left (fun c kv => set c (fst kv) (snd kv)) kvs c.

(** The keys of a list of entries. *)
Definition keys (l : list (string * string)) : list string := map fst l.

End Cache.

(** ** [react/thumbhash.tsx] *)

Module Thumbhash.
Import Cache.

Inductive ImgPriority : Type := high | low | auto.

Record ParsedThumbhash : Type := {
  id : string;
  data : string   (* Uint8Array *)
}.

(** [useParsedThumbhash]; [None] when [atob] rejects the text. *)
Definition useParsedThumbhash (thumbhash : option string)
    : option (option ParsedThumbhash) :=
  match thumbhash with
  | None => Some None
  | Some t =>
      match Helpers.base64UrlDecode t with
      | Some bytes => Some (Some {| id := t; data := bytes |})
      | None => None
      end
  end.

(** The props that drive the scheduling; [width], [height] and [fit] only
    style the element, and [shouldRender] is read when a callback runs. *)
Record ThumbhashImgProps : Type := {
  thumbhash : ParsedThumbhash;
  priority : ImgPriority
}.

(** [isInViewport]: the bounding rectangle against the window enlarged by
    [rootMargin] on every side. *)
Record DOMRect : Type := { left : Q; right : Q; top : Q; bottom : Q }.

Definition isInViewport (rect : DOMRect) (innerWidth innerHeight rootMargin : Q) : bool :=
  let intersectingX :=
    Qle_bool (left rect) (innerWidth + rootMargin)
    && Qle_bool (0 - rootMargin) (right rect) in
  let intersectingY :=
    Qle_bool (top rect) (innerHeight + rootMargin)
    && Qle_bool (0 - rootMargin) (bottom rect) in
  intersectingX && intersectingY.

Section Component.

Context {C : Type} `{Cache C}.

(** [thumbHashToDataURL] of the [thumbhash] package. *)
Variable thumbHashToDataURL : string -> string.

(** Whether the global [requestIdleCallback] is declared.  Where it is
    not, evaluating [requestIdleCallback || requestAnimationFrame] throws
    a [ReferenceError]; where it is declared and undefined, the expression
    is [requestAnimationFrame]. *)
Variable idleCallbackDeclared : bool.

(** One mounted [ThumbhashImg]. *)
Record State : Type := {
  src : option string;          (* useState *)
  decodingRequested : bool;     (* useRef(false) *)
  frameRequested : bool;        (* a requestAnimationFrame callback is queued *)
  observing : bool;             (* intersectionObserver.current is connected *)
  decodeDeferred : bool;        (* a tryDecode callback is queued (priority low) *)
  cache : C                     (* config.ThumbhashImg.cache, shared *)
}.

(** What the browser may call back.  [shouldRender] is the value of
    [props.shouldRender()] and [inViewport] the value of [isInViewport] at
    the time of the call.  [Idle] is the run of the callback that
    [tryDecode] queued, by [requestIdleCallback] or by
    [requestAnimationFrame]. *)
Inductive Event : Type :=
| Ref (elm : bool)                               (* ref callback, [false] for null *)
| AnimationFrame (shouldRender inViewport : bool)
| Intersection (entries : list bool) (shouldRender : bool)
| Idle (shouldRender : bool)                     (* the queued tryDecode callback *)
| Unmount.

(** The initial state: [useState(() => cache.get(thumbhash.id))]. *)
Definition mount (props : ThumbhashImgProps) (c : C) : State :=
  let (cached, c') := get c (id (thumbhash props)) in
  {| src := cached; decodingRequested := false;
     frameRequested := false; observing := false; decodeDeferred := false;
     cache := c' |}.

(** Assignments to the refs and to the queues of the browser. *)
Definition requested (st : State) : State :=
  {| src := src st; decodingRequested := true;
     frameRequested := true; observing := observing st;
     decodeDeferred := decodeDeferred st; cache := cache st |}.

Definition frameDone (st : State) : State :=
  {| src := src st;
     decodingRequested := decodingRequested st;
     frameRequested := false; observing := observing st;
     decodeDeferred := decodeDeferred st; cache := cache st |}.

Definition setObserving (b : bool) (st : State) : State :=
  {| src := src st;
     decodingRequested := decodingRequested st;
     frameRequested := frameRequested st; observing := b;
     decodeDeferred := decodeDeferred st; cache := cache st |}.

Definition setDeferred (b : bool) (st : State) : State :=
  {| src := src st;
     decodingRequested := decodingRequested st;
     frameRequested := frameRequested st; observing := observing st;
     decodeDeferred := b; cache := cache st |}.

(** The local function [decode] of the ref callback. *)
Definition decode (props : ThumbhashImgProps) (st : State) : State :=
  let (cachedSrc, c') := get (cache st) (id (thumbhash props)) in
  match cachedSrc with
  | None =>
      let s := thumbHashToDataURL (data (thumbhash props)) in
      {| src := Some s;
         decodingRequested := decodingRequested st;
         frameRequested := frameRequested st;
         observing := observing st;
         decodeDeferred := decodeDeferred st;
         cache := set c' (id (thumbhash props)) s |}
  | Some s =>
      {| src := Some s;
         decodingRequested := decodingRequested st;
         frameRequested := frameRequested st;
         observing := observing st;
         decodeDeferred := decodeDeferred st;
         cache := c' |}
  end.

Definition isLow (p : ImgPriority) : bool :=
  match p with low => true | _ => false end.

Definition step (props : ThumbhashImgProps) (st : State) (ev : Event) : State :=
  match ev with
  | Ref elm =>
      if negb elm then st
      else if Helpers.isNotNil (src st) then st
      else if decodingRequested st then st
      else requested st
  | AnimationFrame shouldRender inViewport =>
      if negb (frameRequested st) then st
      else
        let st := frameDone st in
        if negb shouldRender then st
        else if negb (isLow (priority props)) && inViewport then decode props st
        else setObserving true st
  | Intersection entries shouldRender =>
      if negb (observing st) then st
      else
        match entries with
        | [] => st
        | isIntersecting :: _ =>
            if negb isIntersecting then st
            else if isLow (priority props) then
              (* the callback throws before it queues or disconnects
                 anything when [requestIdleCallback] is not declared *)
              if idleCallbackDeclared
              then setObserving false (setDeferred true st)
              else st
            else
              setObserving false (if shouldRender then decode props st else st)
        end
  | Idle shouldRender =>
      if negb (decodeDeferred st) then st
      else
        let st := setDeferred false st in
        if shouldRender then decode props st else st
  | Unmount => setObserving false st
  end.

Definition run (props : ThumbhashImgProps) (st : State) (evs : list Event) : State :=
  fold_left (step props) evs st.

End Component.

End Thumbhash.

(** ** [react/img.tsx] *)

Module Img.
Import Thumbhash.

Inductive LoadingState : Type := loading | loaded | error.

Definition LoadingState_eqb (a b : LoadingState) : bool :=
  match a, b with
  | loading, loading | loaded, loaded | error, error => true
  | _, _ => false
  end.

Section Dimensions.

(** [thumbHashToApproximateAspectRatio] of the [thumbhash] package. *)
Variable thumbHashToApproximateAspectRatio : string -> float.

(** The [useMemo] that resolves [{ width, height }] from the numeric
    props and the parsed thumbhash. *)
Definition dimensions (props_width props_height : option float)
    (thumbhash : option ParsedThumbhash) : option float * option float :=
  match props_width, props_height with
  | Some w, Some h => (Some w, Some h)
  | _, _ =>
      match props_width, thumbhash with
      | Some w, Some t =>
          let ratio := thumbHashToApproximateAspectRatio (data t) in
          (Some w, Some (Js.Math_round (w / ratio)%float))
      | _, _ =>
          match props_height, thumbhash with
          | Some h, Some t =>
              let ratio := thumbHashToApproximateAspectRatio (data t) in
              (Some (Js.Math_round (h * ratio)%float), Some h)
          | _, _ => (props_width, props_height)
          end
      end
  end.

End Dimensions.

(** The state of one mounted [Img]: [loadingState], the ref
    [loadingFailed], and the number of [onLoad] handlers suspended at
    [await elm.currentTarget.decode()]. *)
Record State : Type := {
  loadingState : LoadingState;
  loadingFailed : bool;
  decoding : nat
}.

Definition initial : State :=
  {| loadingState := loading; loadingFailed := false; decoding := 0 |}.

(** What the primary [<img>] element reports. *)
Inductive Signal : Type :=
| LoadEvent        (* onLoad is called and awaits the decode *)
| DecodeComplete   (* the awaited decode() resolves *)
| DecodeRejected   (* the awaited decode() rejects *)
| ErrorEvent.      (* onError is called *)

(** The layers of the widget, in the order the JSX lists them. *)
Inductive Layer : Type :=
| PrimaryImage       (* <img src srcSet ... /> *)
| ThumbhashLayer     (* <ThumbhashImg ... /> *)
| PlaceholderNode    (* config.Img.placeholderNode *)
| ErrorNode.         (* config.Img.errorNode *)

Definition Layer_eqb (a b : Layer) : bool :=
  match a, b with
  | PrimaryImage, PrimaryImage | ThumbhashLayer, ThumbhashLayer
  | PlaceholderNode, PlaceholderNode | ErrorNode, ErrorNode => true
  | _, _ => false
  end.

Definition when (b : bool) (l : Layer) : list Layer := if b then [l] else [].

(** The children of the wrapper [<div>]. *)
Definition render (loadingState : LoadingState) (thumbhash : option ParsedThumbhash)
    : list Layer :=
  when (negb (LoadingState_eqb loadingState error)) PrimaryImage
  ++ when (negb (LoadingState_eqb loadingState loaded) && Helpers.isNotNil thumbhash)
       ThumbhashLayer
  ++ when (negb (LoadingState_eqb loadingState loaded) && negb (Helpers.isNotNil thumbhash))
       PlaceholderNode
  ++ when (LoadingState_eqb loadingState error) ErrorNode.

Definition rendered (l : Layer) (layers : list Layer) : bool :=
  existsb (Layer_eqb l) layers.

(** A signal can arrive only from a mounted [<img>] (load, error) or from
    a decode that is still awaited. *)
Definition enabled (st : State) (sig : Signal) : bool :=
  match sig with
  | LoadEvent | ErrorEvent => negb (LoadingState_eqb (loadingState st) error)
  | DecodeComplete | DecodeRejected => Nat.ltb 0 (decoding st)
  end.

(** The handlers [onLoad] (split at its [await]) and [onError]. *)
Definition step (st : State) (sig : Signal) : State :=
  match sig with
  | LoadEvent =>
      {| loadingState := loadingState st; loadingFailed := loadingFailed st;
         decoding := S (decoding st) |}
  | DecodeComplete =>
      {| loadingState := loaded; loadingFailed := loadingFailed st;
         decoding := Nat.pred (decoding st) |}
  | DecodeRejected =>
      {| loadingState := loadingState st; loadingFailed := loadingFailed st;
         decoding := Nat.pred (decoding st) |}
  | ErrorEvent =>
      {| loadingState := error; loadingFailed := true; decoding := decoding st |}
  end.

(** A run of signals; [None] as soon as one of them cannot occur. *)
Fixpoint run (st : State) (sigs : list Signal) : option State :=
  match sigs with
  | [] => Some st
  | sig :: rest => if enabled st sig then run (step st sig) rest else None
  end.

(** [shouldRenderThumbhash]. *)
Definition shouldRenderThumbhash (imgRef : option bool) (st : State) : bool :=
  match imgRef with
  | None => true
  | Some complete => negb complete || loadingFailed st
  end.

(** The signals that assign [loadingState]. *)
Definition assigns (sig : Signal) : option LoadingState :=
  match sig with
  | DecodeComplete => Some loaded
  | ErrorEvent => Some error
  | LoadEvent | DecodeRejected => None
  end.

End Img.

(** ** [react/img.tsx], the revision with percentage dimensions *)

Module ImgPercentage.
Import Js Thumbhash.

(** [number | Percentage], where [Percentage] is the type of the strings
    that end in [%].  A numeric prop and a measured size are given by
    their exact value. *)
Inductive Dimension : Type :=
| Number (n : Q)
| Percentage (text : string).

(** [wrapperSizes] *)
Record Sizes : Type := { width : option Q; height : option Q }.

(** The fields of [isPercentage]. *)
Definition isPercentage (d : option Dimension) : bool :=
  match d with
  | Some (Percentage _) => true
  | _ => false
  end.

(** [typeof d === 'number' && !isPercentage ? d : wrapperSize] *)
Definition numeric (d : option Dimension) (wrapperSize : option Q) : option Q :=
  match d with
  | Some (Number n) => if negb (isPercentage d) then Some n else wrapperSize
  | _ => wrapperSize
  end.

(** A resolved dimension that is absent or a given size. *)
Definition given (size : option Q) : option Value :=
  match size with
  | Some q => Some (Finite q)
  | None => None
  end.

Section Dimensions.

Variable thumbHashToApproximateAspectRatio : string -> float.

(** The [useMemo] of the dimensions.  A dimension that follows from the
    aspect ratio is computed on the numbers, as the platform divides,
    multiplies and rounds them, and can be an infinity or [NaN]. *)
Definition dimensions (props_width props_height : option Dimension)
    (thumbhash : option ParsedThumbhash) (wrapperSizes : Sizes)
    : option Value * option Value :=
  let numericWidth := numeric props_width (width wrapperSizes) in
  let numericHeight := numeric props_height (height wrapperSizes) in
  match numericWidth, numericHeight with
  | Some w, Some h => (Some (Finite w), Some (Finite h))
  | _, _ =>
      match numericWidth, thumbhash with
      | Some w, Some t =>
          let ratio := thumbHashToApproximateAspectRatio (data t) in
          (Some (Finite w), Some (valueOf (Math_round (ofRational w / ratio)%float)))
      | _, _ =>
          match numericHeight, thumbhash with
          | Some h, Some t =>
              let ratio := thumbHashToApproximateAspectRatio (data t) in
              (Some (valueOf (Math_round (ofRational h * ratio)%float)), Some (Finite h))
          | _, _ => (given numericWidth, given numericHeight)
          end
      end
  end.

(** The mount effect: measures the wrapper ([clientWidth],
    [clientHeight]) when it is attached. *)
Definition measure (props_width props_height : option Dimension)
    (wrapperSizes : Sizes) (wrapper : option (Q * Q)) : Sizes :=
  match wrapper with
  | None => wrapperSizes
  | Some (clientWidth, clientHeight) =>
      let pw := isPercentage props_width in
      let ph := isPercentage props_height in
      let s1 := if pw && ph
                then {| width := Some clientWidth; height := Some clientHeight |}
                else wrapperSizes in
      let s2 := if pw && negb ph
                then {| width := Some clientWidth; height := height wrapperSizes |}
                else s1 in
      if negb pw && ph
      then {| width := width wrapperSizes; height := Some clientHeight |}
      else s2
  end.

(** The body of the [for] loop of the [ResizeObserver] callback for one
    entry [(inlineSize, blockSize)]: [pending] is the value of the last
    [setWrapperSizes] call so far, and [wrapperSizes], [width], [height]
    are the values the effect closed over. *)
Definition observeEntry (props_width props_height : option Dimension)
    (wrapperSizes : Sizes) (width height : Value)
    (pending : Sizes) (entry : Q * Q) : Sizes :=
  let (newWidth, newHeight) := entry in
  let pw := isPercentage props_width in
  let ph := isPercentage props_height in
  let s1 := if pw && ph
                 && (gt newWidth (times (3 # 2) width) || lt newWidth (times (3 # 4) width))
            then {| ImgPercentage.width := Some newWidth;
                    ImgPercentage.height := Some newHeight |}
            else pending in
  let s2 := if pw && negb ph
                 && (gt newWidth (times (3 # 2) width) || lt newWidth (times (3 # 4) width))
            then {| ImgPercentage.width := Some newWidth;
                    ImgPercentage.height := ImgPercentage.height wrapperSizes |}
            else s1 in
  if negb pw && ph
     && (gt newHeight (times (3 # 2) height) || lt newHeight (times (3 # 4) height))
  then {| ImgPercentage.width := ImgPercentage.width wrapperSizes;
          ImgPercentage.height := Some newHeight |}
  else s2.

(** The second effect: the committed [wrapperSizes] after the observer
    reports [entries].  There is an observer only when the [<img>] is
    mounted, both dimensions are resolved and one of them is a
    percentage. *)
Definition onResize (imgRef : bool) (props_width props_height : option Dimension)
    (thumbhash : option ParsedThumbhash) (wrapperSizes : Sizes)
    (entries : list (Q * Q)) : Sizes :=
  match dimensions props_width props_height thumbhash wrapperSizes with
  | (Some width, Some height) =>
      if imgRef && (isPercentage props_width || isPercentage props_height)
      then fold_left (observeEntry props_width props_height wrapperSizes width height)
             entries wrapperSizes
      else wrapperSizes
  | _ => wrapperSizes
  end.

End Dimensions.

(** The band of the spec: [x] lies within [0.75 * previous, 1.5 * previous]. *)
Definition inBand (x previous : Q) : bool :=
  Qle_bool ((3 # 4) * previous) x && Qle_bool x ((3 # 2) * previous).

End ImgPercentage.

(** ** Example inputs *)

Module Examples.
Import FilejetImg.

(** The request of the README, with a Filejet file identifier. *)
Definition exampleProps : FilejetImgProps :=
  {| src := "KRhBC0tycdeENyP1PQkgBA";
     width := Some 128%float;
     height := Some 128%float;
     dpiScale := [1; 1.5; 2]%float;
     fit := cover;
     backgroundColor := "transparent";
     mutation := None;
     filejetDomain := "cdn.myapp.com" |}.

(** The same request with a background colour that ends in a space. *)
Definition spacedProps : FilejetImgProps :=
  {| src := "KRhBC0tycdeENyP1PQkgBA";
     width := Some 128%float;
     height := Some 128%float;
     dpiScale := [1; 1.5; 2]%float;
     fit := cover;
     backgroundColor := "transparent ";
     mutation := None;
     filejetDomain := "cdn.myapp.com" |}.

(** A request without dimensions. *)
Definition fullSizeProps (fit : ImgObjectFit) (extra : option string) : FilejetImgProps :=
  {| src := "KRhBC0tycdeENyP1PQkgBA";
     width := None;
     height := None;
     dpiScale := [1; 1.5; 2]%float;
     fit := fit;
     backgroundColor := "transparent";
     mutation := extra;
     filejetDomain := "cdn.myapp.com" |}.

(** The request of the README, with the URL of an external image. *)
Definition externalProps : FilejetImgProps :=
  {| src := "https://myapp.com/image.jpg";
     width := Some 128%float;
     height := Some 128%float;
     dpiScale := [1; 1.5; 2]%float;
     fit := cover;
     backgroundColor := "transparent";
     mutation := None;
     filejetDomain := "cdn.myapp.com" |}.

(** A document base under which the references of the examples are
    absolute already. *)
Definition absolute (src : string) : option string := Some src.

(** The URL constructor on further references: [//] and [https://] name
    no host, and the constructor throws; any other reference used here is
    absolute already. *)
Definition hostRequired (src : string) : option string :=
  if String.eqb src "//" || String.eqb src "https://" then None else Some src.

(** A request for the external reference [src]. *)
Definition referenceProps (src : string) : FilejetImgProps :=
  {| src := src;
     width := Some 128%float;
     height := Some 128%float;
     dpiScale := [1; 1.5; 2]%float;
     fit := cover;
     backgroundColor := "transparent";
     mutation := None;
     filejetDomain := "cdn.myapp.com" |}.

(** The platform's printer on the numbers of the examples that are not
    integers below 2^53: the scale factor 1.5, [NaN] and the infinities. *)
Definition showScale (scale : float) : string :=
  if (scale =? 1.5)%float then "1.5"
  else if PrimFloat.is_nan scale then "NaN"
  else if (scale =? infinity)%float then "Infinity"
  else if (scale =? neg_infinity)%float then "-Infinity"
  else "?".

End Examples.

Module WidgetExamples.
Import Cache Thumbhash.

(** A placeholder of the README, mounted with an empty cache. *)
Definition exampleThumbhash : ParsedThumbhash :=
  {| id := "HBkSHYSIeHiPiHh8eJd4eTN0EEQG"; data := "thumbhash bytes" |}.

(** A stand-in for the decoder of the [thumbhash] package. *)
Definition exampleDataURL (data : string) : string := "data:image/png;base64," ++ data.

Definition exampleMount (p : ImgPriority) : State (C := LruCache) :=
  mount {| thumbhash := exampleThumbhash; priority := p |}
    (LruCache_new {| props_maxSize := 512 |}).

(** An aspect ratio of two for every thumbhash. *)
Definition squareRatio (data : string) : float := 2%float.

End WidgetExamples.

(** ** Vocabulary of further properties *)

Module Vocabulary.
Import Js.

(** [s.includes(c)] for a character. *)
Fixpoint contains (c : ascii) (s : string) : bool :=
  match s with
  | EmptyString => false
  | String d r => Ascii.eqb d c || contains c r
  end.

(** A request with the given fit, dimensions and extra mutation. *)
Definition request (fit : FilejetImg.ImgObjectFit) (width height : option float)
    (extra : option string) : FilejetImg.FilejetImgProps :=
  {| FilejetImg.src := "KRhBC0tycdeENyP1PQkgBA";
     FilejetImg.width := width;
     FilejetImg.height := height;
     FilejetImg.dpiScale := [1; 1.5; 2]%float;
     FilejetImg.fit := fit;
     FilejetImg.backgroundColor := "transparent";
     FilejetImg.mutation := extra;
     FilejetImg.filejetDomain := "cdn.myapp.com" |}.

(** A URL constructor that rejects every reference. *)
Definition rejecting (src : string) : option string := None.

(** A character of the standard or of the URL-safe base64 alphabet. *)
Definition base64Char (c : ascii) : bool :=
  Helpers.isNotNil (Base64.decodeSextet (Base64.plainChar c)).

(** What the standard alphabet needs of one sextet: [-] and [_] do not
    occur in it. *)
Definition standardCheck (n : N) : bool :=
  Ascii.eqb (Base64.plainChar (Base64.encodeSextet n)) (Base64.encodeSextet n).

(** The callback finds [props.shouldRender()] false, or does not ask. *)
Definition declines (ev : Thumbhash.Event) : bool :=
  match ev with
  | Thumbhash.AnimationFrame shouldRender _ => negb shouldRender
  | Thumbhash.Intersection _ shouldRender => negb shouldRender
  | Thumbhash.Idle shouldRender => negb shouldRender
  | Thumbhash.Ref _ | Thumbhash.Unmount => true
  end.

(** The decoding was requested and nothing is queued or observed any
    more. *)
Definition quiescent {C} (st : Thumbhash.State (C := C)) : bool :=
  Thumbhash.decodingRequested st
  && negb (Thumbhash.frameRequested st)
  && negb (Thumbhash.observing st)
  && negb (Thumbhash.decodeDeferred st).

(** The event is the run of the queued [tryDecode] callback. *)
Definition isIdle (ev : Thumbhash.Event) : bool :=
  match ev with
  | Thumbhash.Idle _ => true
  | _ => false
  end.

(** A placeholder is shown and nothing is queued or observed. *)
Definition settled {C} (st : Thumbhash.State (C := C)) : bool :=
  Helpers.isNotNil (Thumbhash.src st)
  && negb (Thumbhash.frameRequested st)
  && negb (Thumbhash.observing st)
  && negb (Thumbhash.decodeDeferred st).

(** A cache an application could supply: an unbounded list of entries,
    the latest first. *)
Definition Store : Type := list (string * string).

Definition Store_get (store : Store) (key : string) : option string :=
  match find (fun entry => String.eqb (fst entry) key) store with
  | Some entry => Some (snd entry)
  | None => None
  end.

#[export] Instance Store_Cache : Cache.Cache Store := {
  Cache.has := fun store key => Helpers.isNotNil (Store_get store key);
  Cache.get := fun store key => (Store_get store key, store);
  Cache.set := fun store key value => (key, value) :: store
}.

(** A [ThumbhashImg] of the README's thumbhash, mounted on an empty
    store. *)
Definition freshMount (p : Thumbhash.ImgPriority) : Thumbhash.State (C := Store) :=
  Thumbhash.mount
    {| Thumbhash.thumbhash := WidgetExamples.exampleThumbhash; Thumbhash.priority := p |}
    [].

(** The signal is a load failure. *)
Definition isErrorEvent (sig : Img.Signal) : bool :=
  match sig with
  | Img.ErrorEvent => true
  | _ => false
  end.

(** A window of 1024 by 768 and an element below its lower edge. *)
Definition belowTheFold : Thumbhash.DOMRect :=
  {| Thumbhash.left := 0; Thumbhash.right := 200;
     Thumbhash.top := 800; Thumbhash.bottom := 1000 |}.

End Vocabulary.

(** * Properties *)

(** ** Strings *)

Module JsFacts.
Import Js.

Lemma append_assoc (a b c : string) : (a ++ b) ++ c = a ++ (b ++ c).
Proof. induction a as [|x a IH]; simpl; congruence. Qed.

Lemma append_nil_r (a : string) : a ++ "" = a.
Proof. induction a as [|x a IH]; simpl; congruence. Qed.

(** Appends are brought to the right-nested form. *)
Ltac string_norm := repeat (progress (rewrite ?append_assoc; cbn [append])).

Lemma isEmpty_app_cons (q : string) (c : ascii) (s : string) :
  isEmpty (q ++ String c s) = false.
Proof. destruct q; reflexivity. Qed.

(** [trimEnd] stops at the last character that is not white space. *)
Lemma trimEnd_app (q : string) (c : ascii) (s : string) :
  isWhiteSpace c = false ->
  trimEnd (q ++ String c s) = q ++ String c (trimEnd s).
Proof.
  intros Hc. induction q as [|x q IH]; simpl.
  - rewrite Hc. reflexivity.
  - rewrite IH, isEmpty_app_cons, andb_false_r. reflexivity.
Qed.

(** A text between two characters that are not white space keeps both
    ends when it is trimmed. *)
Lemma trim_between (x : ascii) (q : string) (c : ascii) (s : string) :
  isWhiteSpace x = false ->
  isWhiteSpace c = false ->
  trim (String x q ++ String c s) = String x q ++ String c (trimEnd s).
Proof.
  intros Hx Hc. unfold trim.
  change (String x q ++ String c s) with (String x (q ++ String c s)).
  cbn [trimStart]. rewrite Hx.
  change (String x (q ++ String c s)) with (String x q ++ String c s).
  apply trimEnd_app, Hc.
Qed.

Lemma split_not_nil (c : ascii) (s : string) : split c s <> [].
Proof.
  induction s as [|d s IH]; simpl; [discriminate|].
  destruct (Ascii.eqb d c); [discriminate|].
  destruct (split c s); [contradiction|discriminate].
Qed.

(** Splitting distributes over a separator written between two texts. *)
Lemma split_app (c : ascii) (a b : string) :
  split c (a ++ String c b) = (split c a ++ split c b)%list.
Proof.
  induction a as [|d a IH]; simpl.
  - rewrite Ascii.eqb_refl. reflexivity.
  - destruct (Ascii.eqb d c).
    + rewrite IH. reflexivity.
    + rewrite IH. pose proof (split_not_nil c a) as Hne.
      destruct (split c a); [contradiction|reflexivity].
Qed.

Lemma noEmptyClause_app (a b : string) :
  noEmptyClause (a ++ "," ++ b) = noEmptyClause a && noEmptyClause b.
Proof.
  unfold noEmptyClause. change ("," ++ b) with (String "," b).
  rewrite split_app, forallb_app. reflexivity.
Qed.

Lemma noEmptyClause_join (p : string) (l : list string) :
  noEmptyClause (join "," (p :: l)) = forallb noEmptyClause (p :: l).
Proof.
  revert p. induction l as [|q l IH]; intros p.
  - simpl. rewrite andb_true_r. reflexivity.
  - change (join "," (p :: q :: l)) with (p ++ "," ++ join "," (q :: l)).
    rewrite noEmptyClause_app, IH. reflexivity.
Qed.

(** [Math.round] leaves [NaN], the infinities, the zeros and the numbers
    [(-1)^s * m * 2^e] with [0 <= e], which are integers, as they are. *)
Lemma Math_round_integral (x : float) :
  match Prim2SF x with
  | S754_finite _ _ e => (0 <= e)%Z
  | _ => True
  end ->
  Math_round x = x.
Proof.
  unfold Math_round. destruct (Prim2SF x) as [s|s| |s m e]; try reflexivity.
  intros He. apply Z.leb_le in He. rewrite He. reflexivity.
Qed.

(** [Math.round] of any other number [x = (-1)^s * m * 2^e] is the number
    of the integer [n] with [n - 1/2 <= x < n + 1/2], written [-0] when
    [n] is zero and [x] is negative. *)
Lemma Math_round_nearest (x : float) (s : bool) (m : positive) (e : Z) :
  Prim2SF x = S754_finite s m e -> (e < 0)%Z ->
  exists n : Z,
    Math_round x = (if (n =? 0)%Z then (if s then (-0)%float else 0%float) else ofInteger n)
    /\ ((2 * n - 1) * 2 ^ (- e) <= 2 * signed s m < (2 * n + 1) * 2 ^ (- e))%Z.
Proof.
  intros Hx He. unfold Math_round. rewrite Hx.
  replace (0 <=? e)%Z with false by (symmetry; apply Z.leb_gt, He).
  eexists. split; [reflexivity|].
  rewrite Z.shiftr_div_pow2 by lia.
  assert (Hpow : (2 ^ (- e) = 2 * 2 ^ (- e - 1))%Z).
  { rewrite <- Z.pow_succ_r by lia. f_equal. lia. }
  assert (Hpos : (0 < 2 ^ (- e - 1))%Z) by (apply Z.pow_pos_nonneg; lia).
  pose proof (Z.div_mod (signed s m + 2 ^ (- e - 1)) (2 ^ (- e)) ltac:(lia)) as Hdiv.
  pose proof (Z.mod_pos_bound (signed s m + 2 ^ (- e - 1)) (2 ^ (- e)) ltac:(lia)) as Hmod.
  set (n := ((signed s m + 2 ^ (- e - 1)) / 2 ^ (- e))%Z) in *.
  set (r := ((signed s m + 2 ^ (- e - 1)) mod 2 ^ (- e))%Z) in *.
  set (P := (2 ^ (- e))%Z) in *. set (h := (2 ^ (- e - 1))%Z) in *.
  nia.
Qed.

(** The rounding and the printing on numbers of the binary64 format:
    5 * 1.7 is 8.5 and rounds to 9; 50 * 1.15 is below 57.5 and rounds to
    57; 201 / 0.4 is 502.5 and rounds to 503; the largest number below
    one half rounds to 0; a negative tie rounds up; a quotient by zero is
    an infinity, which the platform prints. *)
Lemma Math_round_binary64 (Number_toString : float -> string) :
  Math_round (5 * 1.7)%float = 9%float
  /\ Math_round (50 * 1.15)%float = 57%float
  /\ Math_round (201 / 0.4)%float = 503%float
  /\ Math_round 0.49999999999999994%float = 0%float
  /\ Math_round (-2.5)%float = (-2)%float
  /\ Math_round (200 / 0)%float = infinity
  /\ numberToString Number_toString (Math_round (50 * 1.15)%float) = "57"
  /\ numberToString Number_toString (Math_round (-0.5)%float) = "0"
  /\ numberToString Number_toString (Math_round (200 / 0)%float) = Number_toString infinity
  /\ numberToString Number_toString 1e21%float = Number_toString 1e21%float.
Proof. repeat split. Qed.

End JsFacts.

(** ** The mutation URL builder *)

Module FilejetImgFacts.
Import Js FilejetImg JsFacts Examples.

Section Builder.

Variable Number_toString : float -> string.

#[local] Abbreviation scaled := (FilejetImg.scaled Number_toString).
#[local] Abbreviation resize := (FilejetImg.resize Number_toString).
#[local] Abbreviation imgSrc_mutation := (FilejetImg.imgSrc_mutation Number_toString).
#[local] Abbreviation imgSrc URL_href := (FilejetImg.imgSrc URL_href Number_toString).
#[local] Abbreviation srcSetEntries URL_href :=
  (FilejetImg.srcSetEntries URL_href Number_toString).
#[local] Abbreviation filejetImg URL_href := (FilejetImg.filejetImg URL_href Number_toString).

(** [resize] returns for every input: its two [throw] statements are
    behind the guard of its first line. *)
Lemma resize_returns width height scale fit backgroundColor :
  exists r, resize width height scale fit backgroundColor = Ok r.
Proof.
  destruct width, height, fit; simpl; eexists; reflexivity.
Qed.

Lemma resize_neither scale fit backgroundColor :
  resize None None scale fit backgroundColor = Ok None.
Proof. reflexivity. Qed.

Lemma resize_cover_both w h scale backgroundColor :
  resize (Some w) (Some h) scale cover backgroundColor =
  Ok (Some ("resize_" ++ scaled w scale ++ "x" ++ scaled h scale ++ "min"
            ++ "," ++ "fit_" ++ scaled w scale ++ "x" ++ scaled h scale
            ++ "," ++ "bg_" ++ backgroundColor)).
Proof. cbn [FilejetImg.resize join]. string_norm. reflexivity. Qed.

(** The three clauses of a [cover] resize lose nothing to [trim] except
    white space at the end of the background colour. *)
Lemma trim_cover_clauses (a b bg : string) :
  trim ("resize_" ++ a ++ "x" ++ b ++ "min" ++ "," ++ "fit_" ++ a ++ "x" ++ b
          ++ "," ++ "bg_" ++ bg)
  = "resize_" ++ a ++ "x" ++ b ++ "min,fit_" ++ a ++ "x" ++ b ++ ",bg_" ++ trimEnd bg.
Proof.
  pose proof (trim_between "r" ("esize_" ++ a ++ "x" ++ b ++ "min,fit_" ++ a ++ "x" ++ b ++ ",bg")
                "_" bg eq_refl eq_refl) as H.
  repeat (progress (rewrite ?append_assoc in H; cbn [append] in H)).
  string_norm. exact H.
Qed.

Lemma imgSrc_mutation_resized props scale resized :
  resize (width props) (height props) scale (fit props) (backgroundColor props)
    = Ok resized ->
  imgSrc_mutation props scale
    = Ok (Some (join "," (map trim (Helpers.filterNotNil [resized; mutation props]
                                    ++ ["auto"])))).
Proof.
  intros Hr. unfold FilejetImg.imgSrc_mutation. rewrite Hr. simpl.
  destruct resized, (mutation props); reflexivity.
Qed.

(** Whatever the scale, [imgSrc] fails only when the URL constructor
    rejects an external source reference. *)
Lemma imgSrc_throws URL_href props scale e :
  imgSrc URL_href props scale = Throw e ->
  e = InvalidURL /\ isExternal (src props) = true /\ URL_href (src props) = None.
Proof.
  destruct (resize_returns (width props) (height props) scale (fit props)
              (backgroundColor props)) as [r Hr].
  unfold FilejetImg.imgSrc. rewrite (imgSrc_mutation_resized props scale r Hr). cbn [bind].
  destruct (isExternal (src props)); [|discriminate].
  destruct (URL_href (src props)); [discriminate|].
  intros [= <-]. auto.
Qed.

Lemma srcSetEntries_throws URL_href props scales e :
  srcSetEntries URL_href props scales = Throw e ->
  e = InvalidURL /\ isExternal (src props) = true /\ URL_href (src props) = None.
Proof.
  induction scales as [|scale scales IH]; cbn [FilejetImg.srcSetEntries]; [discriminate|].
  destruct (imgSrc URL_href props scale) as [url|e'] eqn:Hurl; cbn [bind].
  - destruct (srcSetEntries URL_href props scales) as [entries|e'];
      cbn [bind]; [discriminate|].
    intros [= <-]. apply IH. reflexivity.
  - intros [= <-]. apply (imgSrc_throws _ _ _ _ Hurl).
Qed.

Lemma filejetImg_throws URL_href props e :
  filejetImg URL_href props = Throw e ->
  e = InvalidURL /\ isExternal (src props) = true /\ URL_href (src props) = None.
Proof.
  unfold FilejetImg.filejetImg.
  destruct (imgSrc URL_href props 1) as [url|e'] eqn:Hurl; cbn [bind].
  - destruct (srcSetEntries URL_href props (dpiScale props))
      as [entries|e'] eqn:Hset; cbn [bind]; [discriminate|].
    intros [= <-]. apply (srcSetEntries_throws _ _ _ _ Hset).
  - intros [= <-]. apply (imgSrc_throws _ _ _ _ Hurl).
Qed.

(** C1, as amended.  With [fit = cover] and both dimensions set, the
    mutation string of every scale factor is
    [resize_{A}x{B}min,fit_{A}x{B},bg_{colour}] followed by the remaining
    clauses, which end in [auto].  Here [A] is
    [Math.round(width * scale)] and [B] is [Math.round(height * scale)],
    the products being those of the binary64 numbers, each written as a
    template literal writes a number, and [colour] is the background
    colour without the white space at its end, which [combineMutations]
    trims.  The request of the README (128 by 128, scale 1,
    [transparent]) gives
    [resize_128x128min,fit_128x128,bg_transparent,auto]. *)
Theorem cover_both_mutation (props : FilejetImgProps) (scale w h : float)
    (Hfit : fit props = cover)
    (Hwidth : width props = Some w)
    (Hheight : height props = Some h) :
  imgSrc_mutation props scale =
    Ok (Some ("resize_" ++ scaled w scale ++ "x" ++ scaled h scale
              ++ "min,fit_" ++ scaled w scale ++ "x" ++ scaled h scale
              ++ ",bg_" ++ trimEnd (backgroundColor props)
              ++ remaining (mutation props)))
  /\ scaled w scale = numberToString Number_toString (Math_round (w * scale)%float)
  /\ scaled h scale = numberToString Number_toString (Math_round (h * scale)%float)
  /\ imgSrc_mutation exampleProps 1 =
       Ok (Some "resize_128x128min,fit_128x128,bg_transparent,auto").
Proof.
  split; [|repeat split].
  rewrite (imgSrc_mutation_resized props scale _
             (eq_trans (f_equal3 (fun w h f => resize w h scale f _) Hwidth Hheight Hfit)
                       (resize_cover_both w h scale _))).
  do 2 f_equal.
  destruct (mutation props) as [e|];
    cbn [Helpers.filterNotNil app map join];
    rewrite trim_cover_clauses; unfold remaining; string_norm; reflexivity.
Qed.

(** C3, as amended.  A request with neither width nor height does not
    fail: [resize] returns no clause and the mutation string is the
    trimmed extra mutation, when there is one, followed by [auto].  The
    error [InvalidDimensions] is raised for no request at all, and the
    only failure of the builder is the URL constructor rejecting an
    external source reference. *)
Theorem no_dimensions_no_error (URL_href : string -> option string)
    (props : FilejetImgProps) (scale : float) :
  (width props = None -> height props = None ->
     resize (width props) (height props) scale (fit props) (backgroundColor props)
       = Ok None
     /\ imgSrc_mutation props scale =
          Ok (Some (match mutation props with
                    | Some e => trim e ++ ",auto"
                    | None => "auto"
                    end)))
  /\ imgSrc URL_href props scale <> Throw InvalidDimensions
  /\ (forall e, imgSrc URL_href props scale = Throw e ->
        e = InvalidURL /\ isExternal (src props) = true /\ URL_href (src props) = None)
  /\ (forall e,
        filejetImg URL_href props = Throw e ->
        e = InvalidURL /\ isExternal (src props) = true /\ URL_href (src props) = None).
Proof.
  destruct (resize_returns (width props) (height props) scale (fit props)
              (backgroundColor props)) as [r Hr].
  pose proof (imgSrc_mutation_resized props scale r Hr) as Hm.
  pose proof (imgSrc_throws URL_href props scale) as Hsrc.
  split; [|split; [|split]].
  - intros Hw Hh. split.
    + rewrite Hw, Hh. reflexivity.
    + unfold FilejetImg.imgSrc_mutation. rewrite Hw, Hh. simpl.
      destruct (mutation props); reflexivity.
  - intros Habs. destruct (Hsrc _ Habs) as [Hcontra _]. discriminate.
  - exact Hsrc.
  - intros e. apply filejetImg_throws.
Qed.

(** C9, as amended.  The mutation string is the list [resize mutation,
    extra mutation, auto], in this order, without the parts that are
    absent, each part trimmed and the parts joined with a comma.  A part
    that is present is kept even when it is empty after trimming, so the
    string is free of empty clauses exactly when the trimmed resize
    mutation and the trimmed extra mutation, where present, are. *)
Theorem mutations_combined (props : FilejetImgProps) (scale : float) :
  exists resized,
    resize (width props) (height props) scale (fit props) (backgroundColor props)
      = Ok resized
    /\ imgSrc_mutation props scale =
         Ok (Some (join "," (map trim (Helpers.filterNotNil [resized; mutation props]
                                        ++ ["auto"]))))
    /\ noEmptyClause (join "," (map trim (Helpers.filterNotNil [resized; mutation props]
                                           ++ ["auto"])))
       = forallb (fun part => noEmptyClause (trim part))
           (Helpers.filterNotNil [resized; mutation props]).
Proof.
  destruct (resize_returns (width props) (height props) scale (fit props)
              (backgroundColor props)) as [r Hr].
  exists r. split; [exact Hr|]. split; [exact (imgSrc_mutation_resized _ _ _ Hr)|].
  destruct r as [r|], (mutation props) as [e|]; cbn [Helpers.filterNotNil app map];
    rewrite noEmptyClause_join; cbn [forallb];
    change (noEmptyClause (trim "auto")) with true;
    rewrite ?andb_true_r; reflexivity.
Qed.

End Builder.

Lemma cover_both_mutation_witness :
  imgSrc_mutation showScale exampleProps 1.5 =
    Ok (Some "resize_192x192min,fit_192x192,bg_transparent,auto")
  /\ imgSrc_mutation showScale exampleProps 1 =
       Ok (Some "resize_128x128min,fit_128x128,bg_transparent,auto").
Proof.
  destruct (cover_both_mutation showScale exampleProps 1.5 128 128 eq_refl eq_refl eq_refl)
    as (Hscaled & _ & _ & Hexample).
  split; [exact Hscaled|exact Hexample].
Defined.

(** C1 as stated fails when the background colour ends in white space:
    the clause written is [bg_transparent], not [bg_transparent ]. *)
Lemma cover_both_mutation_not_verbatim :
  fit spacedProps = cover
  /\ width spacedProps = Some 128%float
  /\ height spacedProps = Some 128%float
  /\ imgSrc_mutation showScale spacedProps 1 =
       Ok (Some "resize_128x128min,fit_128x128,bg_transparent,auto")
  /\ startsWith "resize_128x128min,fit_128x128,bg_transparent,auto"
       ("resize_" ++ scaled showScale 128 1 ++ "x" ++ scaled showScale 128 1
        ++ "min,fit_" ++ scaled showScale 128 1 ++ "x" ++ scaled showScale 128 1
        ++ ",bg_" ++ backgroundColor spacedProps) = false.
Proof. repeat split. Qed.

Lemma no_dimensions_no_error_witness :
  imgSrc_mutation showScale (fullSizeProps cover (Some " flip ")) 1 = Ok (Some "flip,auto")
  /\ imgSrc_mutation showScale (fullSizeProps contain None) 1 = Ok (Some "auto").
Proof.
  split.
  - exact (proj2 (proj1 (no_dimensions_no_error showScale (fun s => Some s)
                           (fullSizeProps cover (Some " flip ")) 1) eq_refl eq_refl)).
  - exact (proj2 (proj1 (no_dimensions_no_error showScale (fun s => Some s)
                           (fullSizeProps contain None) 1) eq_refl eq_refl)).
Defined.

(** C3 as stated fails: without dimensions the builder returns a URL for
    both fits. *)
Lemma no_dimensions_builds_url :
  width (fullSizeProps cover None) = None
  /\ height (fullSizeProps cover None) = None
  /\ imgSrc (fun s => Some s) showScale (fullSizeProps cover None) 1
       = Ok "https://cdn.myapp.com/KRhBC0tycdeENyP1PQkgBA/auto"
  /\ imgSrc (fun s => Some s) showScale (fullSizeProps contain None) 1
       = Ok "https://cdn.myapp.com/KRhBC0tycdeENyP1PQkgBA/auto".
Proof. repeat split. Qed.

(** C9 as stated fails: an extra mutation that is empty, or white space
    only, leaves an empty clause. *)
Lemma empty_extra_mutation_kept :
  imgSrc_mutation showScale (fullSizeProps cover (Some "  ")) 1 = Ok (Some ",auto")
  /\ split "," ",auto" = [""; "auto"]
  /\ noEmptyClause ",auto" = false
  /\ imgSrc_mutation showScale exampleProps 1
       = Ok (Some "resize_128x128min,fit_128x128,bg_transparent,auto")
  /\ imgSrc_mutation showScale
       {| src := src exampleProps; width := width exampleProps;
          height := height exampleProps; dpiScale := dpiScale exampleProps;
          fit := fit exampleProps; backgroundColor := backgroundColor exampleProps;
          mutation := Some ""; filejetDomain := filejetDomain exampleProps |} 1
       = Ok (Some "resize_128x128min,fit_128x128,bg_transparent,,auto").
Proof. repeat split. Qed.

End FilejetImgFacts.

(** ** Base64 *)

Module Base64Facts.
Import Js Base64.

Lemma below_forallb (k : nat) (P : N -> bool) :
  forallb P (below k) = true ->
  forall n, (n < N.of_nat k)%N -> P n = true.
Proof.
  intros Hall n Hn. rewrite forallb_forall in Hall. apply Hall.
  unfold below. rewrite <- (N2Nat.id n). apply in_map, in_seq. lia.
Qed.

Lemma below_forallb2 (k1 k2 : nat) (P : N -> N -> bool) :
  forallb (fun x => forallb (P x) (below k2)) (below k1) = true ->
  forall x y, (x < N.of_nat k1)%N -> (y < N.of_nat k2)%N -> P x y = true.
Proof.
  intros Hall x y Hx Hy.
  apply (below_forallb k2 (P x)); [|exact Hy].
  apply (below_forallb k1 (fun x => forallb (P x) (below k2))); assumption.
Qed.

(** Strings are read three bytes at a time. *)
Lemma bytes_ind3 (P : string -> Prop) :
  P "" ->
  (forall a, P (String a "")) ->
  (forall a b, P (String a (String b ""))) ->
  (forall a b c rest, P rest -> P (String a (String b (String c rest)))) ->
  forall s, P s.
Proof.
  intros H0 H1 H2 H3.
  fix IH 1. intros [|a [|b [|c rest]]].
  - exact H0.
  - apply H1.
  - apply H2.
  - apply H3, IH.
Qed.

(** *** Sextets and bytes *)

Lemma first_sextet_byte :
  forall x w, (x < 256)%N -> (w < 16)%N ->
    N.land (N.lor (N.shiftl (N.shiftr x 2) 2)
              (N.shiftr (N.lor (N.shiftl (N.land x 3) 4) w) 4)) 255 = x.
Proof.
  intros x w Hx Hw. apply N.eqb_eq.
  apply (below_forallb2 256 16
           (fun x w => N.eqb (N.land (N.lor (N.shiftl (N.shiftr x 2) 2)
              (N.shiftr (N.lor (N.shiftl (N.land x 3) 4) w) 4)) 255) x));
    [vm_compute; reflexivity | exact Hx | exact Hw].
Qed.

Lemma second_sextet_byte :
  forall y u v, (y < 256)%N -> (u < 4)%N -> (v < 4)%N ->
    N.land (N.lor (N.shiftl (N.lor (N.shiftl u 4) (N.shiftr y 4)) 4)
              (N.shiftr (N.lor (N.shiftl (N.land y 15) 2) v) 2)) 255 = y.
Proof.
  intros y u v Hy Hu Hv. apply N.eqb_eq.
  apply (below_forallb 4
           (fun v => N.eqb (N.land (N.lor
              (N.shiftl (N.lor (N.shiftl u 4) (N.shiftr y 4)) 4)
              (N.shiftr (N.lor (N.shiftl (N.land y 15) 2) v) 2)) 255) y));
    [|exact Hv].
  apply (below_forallb2 256 4
           (fun y u => forallb (fun v => N.eqb (N.land (N.lor
              (N.shiftl (N.lor (N.shiftl u 4) (N.shiftr y 4)) 4)
              (N.shiftr (N.lor (N.shiftl (N.land y 15) 2) v) 2)) 255) y) (below 4)));
    [vm_compute; reflexivity | exact Hy | exact Hu].
Qed.

Lemma third_sextet_byte :
  forall z t, (z < 256)%N -> (t < 16)%N ->
    N.land (N.lor (N.shiftl (N.lor (N.shiftl t 2) (N.shiftr z 6)) 6)
              (N.land z 63)) 255 = z.
Proof.
  intros z t Hz Ht. apply N.eqb_eq.
  apply (below_forallb2 256 16
           (fun z t => N.eqb (N.land (N.lor
              (N.shiftl (N.lor (N.shiftl t 2) (N.shiftr z 6)) 6)
              (N.land z 63)) 255) z));
    [vm_compute; reflexivity | exact Hz | exact Ht].
Qed.

Lemma byte_bounds :
  forall x, (x < 256)%N ->
    (N.land x 3 < 4)%N /\ (N.shiftr x 4 < 16)%N
    /\ (N.land x 15 < 16)%N /\ (N.shiftr x 6 < 4)%N.
Proof.
  intros x Hx.
  pose proof (below_forallb 256
    (fun x => (N.land x 3 <? 4)%N && (N.shiftr x 4 <? 16)%N
              && (N.land x 15 <? 16)%N && (N.shiftr x 6 <? 4)%N)
    ltac:(vm_compute; reflexivity) x Hx) as H.
  rewrite !andb_true_iff, !N.ltb_lt in H. tauto.
Qed.

Lemma byte_of_ascii (a : ascii) (n : N) :
  N.land n 255 = N_of_ascii a -> byte n = a.
Proof. intros H. unfold byte. rewrite H. apply ascii_N_embedding. Qed.

(** Decoding the sextets of a byte string gives the string back. *)
Lemma bytesOfSextets_sextetsOfBytes (s : string) :
  bytesOfSextets (sextetsOfBytes s) = s.
Proof.
  induction s as [|a|a b|a b c rest IH] using bytes_ind3.
  - reflexivity.
  - pose proof (N_ascii_bounded a) as Ha.
    cbn [sextetsOfBytes bytesOfSextets]. f_equal.
    apply byte_of_ascii.
    rewrite <- (N.lor_0_r (N.shiftl (N.land (N_of_ascii a) 3) 4)).
    apply first_sextet_byte; [exact Ha|reflexivity].
  - pose proof (N_ascii_bounded a) as Ha. pose proof (N_ascii_bounded b) as Hb.
    destruct (byte_bounds _ Ha) as (Ha3 & _).
    destruct (byte_bounds _ Hb) as (_ & Hb4 & _).
    cbn [sextetsOfBytes bytesOfSextets]. f_equal; [|f_equal].
    + apply byte_of_ascii, first_sextet_byte; assumption.
    + apply byte_of_ascii.
      rewrite <- (N.lor_0_r (N.shiftl (N.land (N_of_ascii b) 15) 2)).
      apply second_sextet_byte; [assumption|assumption|reflexivity].
  - pose proof (N_ascii_bounded a) as Ha. pose proof (N_ascii_bounded b) as Hb.
    pose proof (N_ascii_bounded c) as Hc.
    destruct (byte_bounds _ Ha) as (Ha3 & _).
    destruct (byte_bounds _ Hb) as (_ & Hb4 & Hb15 & _).
    destruct (byte_bounds _ Hc) as (_ & _ & _ & Hc6).
    cbn [sextetsOfBytes bytesOfSextets]. rewrite IH. f_equal; [|f_equal; [|f_equal]].
    + apply byte_of_ascii, first_sextet_byte; assumption.
    + apply byte_of_ascii, second_sextet_byte; assumption.
    + apply byte_of_ascii, third_sextet_byte; assumption.
Qed.

(** Every sextet of a byte string is below 64. *)
Lemma sextetsOfBytes_bounded (s : string) :
  Forall (fun n => (n < 64)%N) (sextetsOfBytes s).
Proof.
  assert (H1 : forall x, (x < 256)%N ->
            (N.shiftr x 2 < 64)%N /\ (N.shiftl (N.land x 3) 4 < 64)%N
            /\ (N.shiftl (N.land x 15) 2 < 64)%N /\ (N.land x 63 < 64)%N).
  { intros x Hx.
    pose proof (below_forallb 256
      (fun x => (N.shiftr x 2 <? 64)%N && (N.shiftl (N.land x 3) 4 <? 64)%N
                && (N.shiftl (N.land x 15) 2 <? 64)%N && (N.land x 63 <? 64)%N)
      ltac:(vm_compute; reflexivity) x Hx) as H.
    rewrite !andb_true_iff, !N.ltb_lt in H. tauto. }
  assert (H2 : forall x y, (x < 256)%N -> (y < 256)%N ->
            (N.lor (N.shiftl (N.land x 3) 4) (N.shiftr y 4) < 64)%N
            /\ (N.lor (N.shiftl (N.land x 15) 2) (N.shiftr y 6) < 64)%N).
  { intros x y Hx Hy.
    pose proof (below_forallb2 256 256
      (fun x y => (N.lor (N.shiftl (N.land x 3) 4) (N.shiftr y 4) <? 64)%N
                  && (N.lor (N.shiftl (N.land x 15) 2) (N.shiftr y 6) <? 64)%N)
      ltac:(vm_compute; reflexivity) x y Hx Hy) as H.
    rewrite !andb_true_iff, !N.ltb_lt in H. tauto. }
  induction s as [|a|a b|a b c rest IH] using bytes_ind3;
    cbn [sextetsOfBytes];
    repeat match goal with
           | a : ascii |- _ =>
               lazymatch goal with
               | H : (N_of_ascii a < 256)%N |- _ => fail
               | _ => pose proof (N_ascii_bounded a)
               end
           end;
    repeat constructor;
    solve [ apply H1; assumption | apply H2; assumption | exact IH ].
Qed.

Lemma sextetsOfBytes_length (s : string) :
  Nat.modulo (List.length (sextetsOfBytes s)) 4 <> 1%nat.
Proof.
  induction s as [|a|a b|a b c rest IH] using bytes_ind3;
    cbn [sextetsOfBytes List.length]; try (cbn; discriminate).
  change (S (S (S (S (List.length (sextetsOfBytes rest))))))
    with (4 + List.length (sextetsOfBytes rest))%nat.
  rewrite Nat.add_comm.
  replace ((List.length (sextetsOfBytes rest) + 4) mod 4)%nat
    with (List.length (sextetsOfBytes rest) mod 4)%nat; [exact IH|].
  symmetry. apply (Nat.Div0.mod_add _ 1 4).
Qed.

(** *** The alphabet and its URL-safe variant *)

Lemma sextet_chars (n : N) :
  (n < 64)%N ->
  encodeSextet n <> pad
  /\ urlChar n <> pad
  /\ urlSafe (urlChar n) = true
  /\ plainChar (urlChar n) = encodeSextet n
  /\ isAsciiWhitespace (encodeSextet n) = false
  /\ decodeSextet (encodeSextet n) = Some n.
Proof.
  intros Hn.
  pose proof (below_forallb 64 sextetCheck ltac:(vm_compute; reflexivity) n Hn) as H.
  unfold sextetCheck in H.
  rewrite !andb_true_iff, !negb_true_iff in H.
  destruct H as (((((H1 & H2) & H3) & H4) & H5) & H6).
  repeat split.
  - apply Ascii.eqb_neq, H1.
  - apply Ascii.eqb_neq, H2.
  - exact H3.
  - apply Ascii.eqb_eq, H4.
  - exact H5.
  - destruct (decodeSextet (encodeSextet n)); [|discriminate].
    apply N.eqb_eq in H6. congruence.
Qed.

Lemma replaceAll_app (c d : ascii) (a b : string) :
  replaceAll c d (a ++ b) = replaceAll c d a ++ replaceAll c d b.
Proof. induction a as [|x a IH]; simpl; congruence. Qed.

Lemma removeAll_app (c : ascii) (a b : string) :
  removeAll c (a ++ b) = removeAll c a ++ removeAll c b.
Proof.
  induction a as [|x a IH]; simpl; [reflexivity|].
  destruct (Ascii.eqb x c); simpl; congruence.
Qed.

Lemma padding_cases (k : nat) :
  padding k = "" \/ padding k = "=" \/ padding k = "==".
Proof.
  unfold padding. destruct (k mod 4)%nat as [|[|[|[|?]]]]; auto.
Qed.

(** The text of [base64UrlEncode] is the URL-safe characters of the
    sextets, without padding. *)
Lemma urlEncode_sextets (l : list N) (k : nat) :
  Forall (fun n => (n < 64)%N) l ->
  removeAll "=" (replaceAll "/" "_" (replaceAll "+" "-"
    (stringOfSextets l ++ padding k))) = stringOfUrlSextets l.
Proof.
  intros Hl. rewrite !replaceAll_app, removeAll_app.
  replace (removeAll "=" (replaceAll "/" "_" (replaceAll "+" "-" (padding k))))
    with "" by (destruct (padding_cases k) as [-> | [-> | ->]]; reflexivity).
  rewrite JsFacts.append_nil_r.
  induction Hl as [|n l Hn Hl IH]; [reflexivity|].
  cbn [stringOfSextets replaceAll removeAll stringOfUrlSextets].
  fold (urlChar n).
  destruct (sextet_chars n Hn) as (_ & Hpad & _).
  apply Ascii.eqb_neq in Hpad. unfold pad in Hpad. rewrite Hpad, IH. reflexivity.
Qed.

Lemma base64UrlEncode_sextets (s : string) :
  Helpers.base64UrlEncode s = stringOfUrlSextets (sextetsOfBytes s).
Proof.
  unfold Helpers.base64UrlEncode, btoa.
  apply urlEncode_sextets, sextetsOfBytes_bounded.
Qed.

Lemma urlDecode_sextets (l : list N) :
  Forall (fun n => (n < 64)%N) l ->
  replaceAll "_" "/" (replaceAll "-" "+" (stringOfUrlSextets l)) = stringOfSextets l.
Proof.
  induction 1 as [|n l Hn Hl IH]; [reflexivity|].
  cbn [stringOfUrlSextets replaceAll stringOfSextets].
  fold (plainChar (urlChar n)).
  destruct (sextet_chars n Hn) as (_ & _ & _ & Hplain & _).
  rewrite Hplain, IH. reflexivity.
Qed.

Lemma urlSafe_sextets (l : list N) :
  Forall (fun n => (n < 64)%N) l ->
  allChars urlSafe (stringOfUrlSextets l) = true.
Proof.
  induction 1 as [|n l Hn Hl IH]; [reflexivity|].
  cbn [stringOfUrlSextets allChars].
  destruct (sextet_chars n Hn) as (_ & _ & Hsafe & _).
  rewrite Hsafe, IH. reflexivity.
Qed.

(** *** [atob] on the text of sextets *)

Lemma stringOfSextets_length (l : list N) :
  String.length (stringOfSextets l) = List.length l.
Proof. induction l; simpl; congruence. Qed.

Lemma removeWhitespace_sextets (l : list N) (k : nat) :
  Forall (fun n => (n < 64)%N) l ->
  removeWhitespace (stringOfSextets l ++ padding k) = stringOfSextets l ++ padding k.
Proof.
  induction 1 as [|n l Hn Hl IH].
  - destruct (padding_cases k) as [-> | [-> | ->]]; reflexivity.
  - cbn [stringOfSextets append removeWhitespace].
    destruct (sextet_chars n Hn) as (_ & _ & _ & _ & Hws & _).
    rewrite Hws, IH. reflexivity.
Qed.

Lemma stripPadding_sextets (l : list N) (k : nat) :
  Forall (fun n => (n < 64)%N) l ->
  stripPadding (stringOfSextets l ++ padding k) = stringOfSextets l.
Proof.
  induction 1 as [|n l Hn Hl IH].
  - destruct (padding_cases k) as [-> | [-> | ->]]; reflexivity.
  - cbn [stringOfSextets append stripPadding].
    destruct (sextet_chars n Hn) as (Hpad & _).
    apply Ascii.eqb_neq in Hpad. rewrite Hpad. cbn [andb].
    rewrite IH.
    destruct Hl as [|m l' Hm Hl'].
    + destruct (padding_cases k) as [-> | [-> | ->]]; reflexivity.
    + cbn [stringOfSextets append].
      destruct (sextet_chars m Hm) as (Hpad' & _).
      replace (String.eqb (String (encodeSextet m) (stringOfSextets l' ++ padding k)) "==")
        with false; [reflexivity|].
      symmetry. apply String.eqb_neq. intros [= Hc _]. exact (Hpad' Hc).
Qed.

Lemma sextetsOfString_sextets (l : list N) :
  Forall (fun n => (n < 64)%N) l ->
  sextetsOfString (stringOfSextets l) = Some l.
Proof.
  induction 1 as [|n l Hn Hl IH]; [reflexivity|].
  cbn [stringOfSextets sextetsOfString].
  destruct (sextet_chars n Hn) as (_ & _ & _ & _ & _ & Hdec).
  rewrite Hdec, IH. reflexivity.
Qed.

Lemma padded_length (n : nat) :
  Nat.modulo n 4 <> 1%nat ->
  Nat.modulo (n + String.length (padding n)) 4 = 0%nat.
Proof.
  intros Hn. unfold padding.
  pose proof (Nat.div_mod_eq n 4) as Hdiv.
  pose proof (Nat.mod_upper_bound n 4 ltac:(discriminate)) as Hlt.
  destruct (n mod 4)%nat as [|[|[|[|?]]]] eqn:Hm; cbn [String.length]; try lia.
  - rewrite Nat.add_0_r. exact Hm.
  - replace (n + 2)%nat with (0 + (n / 4 + 1) * 4)%nat by lia.
    apply Nat.Div0.mod_add.
  - replace (n + 1)%nat with (0 + (n / 4 + 1) * 4)%nat by lia.
    apply Nat.Div0.mod_add.
Qed.

Lemma append_length (a b : string) :
  String.length (a ++ b) = (String.length a + String.length b)%nat.
Proof. induction a; simpl; congruence. Qed.

(** [atob] reads the sextets of a byte string back, with or without the
    padding. *)
Lemma atob_sextets (s : string) :
  atob (stringOfSextets (sextetsOfBytes s)) = Some s
  /\ atob (restorePadding (stringOfSextets (sextetsOfBytes s))) = Some s.
Proof.
  pose proof (sextetsOfBytes_bounded s) as Hb.
  pose proof (sextetsOfBytes_length s) as Hlen.
  pose proof (stripPadding_sextets _ 0 Hb) as Hstrip0.
  pose proof (removeWhitespace_sextets _ 0 Hb) as Hws0.
  change (padding 0) with "" in Hstrip0, Hws0.
  rewrite JsFacts.append_nil_r in Hstrip0, Hws0.
  assert (Hdecode :
    (if Nat.eqb (String.length (stringOfSextets (sextetsOfBytes s)) mod 4) 1
     then None
     else match sextetsOfString (stringOfSextets (sextetsOfBytes s)) with
          | Some l => Some (bytesOfSextets l)
          | None => None
          end) = Some s).
  { rewrite stringOfSextets_length.
    apply Nat.eqb_neq in Hlen. rewrite Hlen.
    rewrite (sextetsOfString_sextets _ Hb), bytesOfSextets_sextetsOfBytes.
    reflexivity. }
  split.
  - unfold atob. rewrite Hws0.
    destruct (Nat.eqb _ 0); [rewrite Hstrip0|]; exact Hdecode.
  - unfold atob, restorePadding. rewrite stringOfSextets_length.
    rewrite (removeWhitespace_sextets _ _ Hb).
    rewrite append_length, stringOfSextets_length.
    rewrite (padded_length _ Hlen). cbn [Nat.eqb].
    rewrite (stripPadding_sextets _ _ Hb). exact Hdecode.
Qed.

(** [base64UrlDecode] inverts [base64UrlEncode], and so does the decoder
    that restores the padding first. *)
Lemma base64Url_roundtrip (s : string) :
  allChars urlSafe (Helpers.base64UrlEncode s) = true
  /\ Helpers.base64UrlDecode (Helpers.base64UrlEncode s) = Some s
  /\ atob (restorePadding
             (replaceAll "_" "/" (replaceAll "-" "+" (Helpers.base64UrlEncode s))))
       = Some s.
Proof.
  pose proof (sextetsOfBytes_bounded s) as Hb.
  unfold Helpers.base64UrlDecode.
  rewrite base64UrlEncode_sextets, (urlDecode_sextets _ Hb).
  split; [apply urlSafe_sextets, Hb|]. apply atob_sextets.
Qed.

End Base64Facts.

(** ** The path segment of the source reference *)

Module SourceReferenceFacts.
Import Js Base64 FilejetImg Base64Facts Examples.

(** C2, as amended.  A source reference that starts with [https://],
    [./], [../], [/] or [//] is given to the URL constructor with the
    document base.  When the constructor accepts it, the path segment is
    [@ext_] followed by the base64 text of the absolute URL in the
    URL-safe alphabet, without padding; decoding that text, either with
    [base64UrlDecode] or with [atob] after [-], [_] and the padding are
    restored, gives the absolute URL back.  When the constructor rejects
    it, the builder throws and there is no URL, for [imgSrc] and for
    [filejetImg] as a whole.  Any other source reference is the path
    segment as it is. *)
Theorem source_reference_segment (URL_href : string -> option string)
    (Number_toString : float -> string) (props : FilejetImgProps) (scale : float) :
  isExternal (src props)
    = (startsWith (src props) "https://" || startsWith (src props) "./"
       || startsWith (src props) "../" || startsWith (src props) "/"
       || startsWith (src props) "//")
  /\ exists mutation,
      imgSrc_mutation Number_toString props scale = Ok (Some mutation)
      /\ (forall href,
            isExternal (src props) = true ->
            URL_href (src props) = Some href ->
            imgSrc URL_href Number_toString props scale =
              Ok ("https://" ++ filejetDomain props ++ "/"
                  ++ ("@ext_" ++ Helpers.base64UrlEncode href) ++ "/" ++ mutation)
            /\ allChars urlSafe (Helpers.base64UrlEncode href) = true
            /\ Helpers.base64UrlDecode (Helpers.base64UrlEncode href) = Some href
            /\ atob (restorePadding
                       (replaceAll "_" "/"
                          (replaceAll "-" "+" (Helpers.base64UrlEncode href))))
                 = Some href)
      /\ (isExternal (src props) = true ->
          URL_href (src props) = None ->
          imgSrc URL_href Number_toString props scale = Throw InvalidURL
          /\ filejetImg URL_href Number_toString props = Throw InvalidURL)
      /\ (isExternal (src props) = false ->
            imgSrc URL_href Number_toString props scale =
              Ok ("https://" ++ filejetDomain props ++ "/" ++ src props
                  ++ "/" ++ mutation)).
Proof.
  split.
  - unfold isExternal, externalPrefixes. cbn [existsb].
    rewrite orb_false_r, !orb_assoc. reflexivity.
  - destruct (FilejetImgFacts.resize_returns Number_toString (width props) (height props)
                scale (fit props) (backgroundColor props)) as [r Hr].
    pose proof (FilejetImgFacts.imgSrc_mutation_resized Number_toString props scale r Hr)
      as Hm.
    eexists. split; [exact Hm|]. split; [|split].
    + intros href Hext Hhref.
      split; [|apply base64Url_roundtrip].
      unfold imgSrc. rewrite Hm. cbn [bind]. rewrite Hext, Hhref. reflexivity.
    + intros Hext Hnone.
      assert (Hthrow : forall s, imgSrc URL_href Number_toString props s = Throw InvalidURL).
      { intros s.
        destruct (FilejetImgFacts.resize_returns Number_toString (width props)
                    (height props) s (fit props) (backgroundColor props)) as [r' Hr'].
        unfold imgSrc.
        rewrite (FilejetImgFacts.imgSrc_mutation_resized Number_toString props s r' Hr').
        cbn [bind]. rewrite Hext, Hnone. reflexivity. }
      split; [apply Hthrow|].
      unfold filejetImg. rewrite Hthrow. reflexivity.
    + intros Hext. unfold imgSrc. rewrite Hm. cbn [bind]. rewrite Hext. reflexivity.
Qed.

Lemma source_reference_segment_witness :
  imgSrc absolute showScale externalProps 1 =
    Ok "https://cdn.myapp.com/@ext_aHR0cHM6Ly9teWFwcC5jb20vaW1hZ2UuanBn/resize_128x128min,fit_128x128,bg_transparent,auto"
  /\ Helpers.base64UrlDecode "aHR0cHM6Ly9teWFwcC5jb20vaW1hZ2UuanBn"
       = Some "https://myapp.com/image.jpg"
  /\ imgSrc hostRequired showScale (referenceProps "https://") 1 = Throw InvalidURL
  /\ imgSrc absolute showScale Examples.exampleProps 1 =
       Ok "https://cdn.myapp.com/KRhBC0tycdeENyP1PQkgBA/resize_128x128min,fit_128x128,bg_transparent,auto".
Proof.
  destruct (source_reference_segment absolute showScale externalProps 1)
    as (_ & m & Hm & Hext & _).
  destruct (source_reference_segment absolute showScale Examples.exampleProps 1)
    as (_ & m' & Hm' & _ & _ & Hint).
  destruct (source_reference_segment hostRequired showScale (referenceProps "https://") 1)
    as (_ & _ & _ & _ & Hthrow & _).
  injection Hm as <-. injection Hm' as <-.
  destruct (Hext "https://myapp.com/image.jpg" eq_refl eq_refl) as (Hurl & _ & Hdec & _).
  split; [exact Hurl|]. split; [exact Hdec|].
  split; [exact (proj1 (Hthrow eq_refl eq_refl))|]. exact (Hint eq_refl).
Defined.

(** C2 as stated fails for a reference that has one of the prefixes and
    that the URL constructor rejects: [//] names no host, the constructor
    throws, and the builder returns no URL and no [@ext_] segment. *)
Lemma rejected_reference_throws :
  isExternal (src (referenceProps "//")) = true
  /\ startsWith (src (referenceProps "//")) "//" = true
  /\ hostRequired (src (referenceProps "//")) = None
  /\ imgSrc hostRequired showScale (referenceProps "//") 1 = Throw InvalidURL
  /\ filejetImg hostRequired showScale (referenceProps "//") = Throw InvalidURL
  /\ imgSrc hostRequired showScale (referenceProps "https://") 1 = Throw InvalidURL.
Proof. repeat split. Qed.

End SourceReferenceFacts.

(** ** The bounded cache *)

Module CacheFacts.
Import Cache.
Local Open Scope list_scope.

Lemma has_keys (q : QuickLRU.t) (k : string) :
  QuickLRU.has q k = true <-> In k (keys (QuickLRU.entries q)).
Proof.
  unfold QuickLRU.has, keys. rewrite existsb_exists, in_map_iff. split.
  - intros [e [He Hk]]. apply String.eqb_eq in Hk. exists e. auto.
  - intros [e [Hk He]]. exists e. split; [exact He|]. apply String.eqb_eq, Hk.
Qed.

Lemma has_not_keys (q : QuickLRU.t) (k : string) :
  ~ In k (keys (QuickLRU.entries q)) -> QuickLRU.has q k = false.
Proof.
  intros Hk. destruct (QuickLRU.has q k) eqn:Hhas; [|reflexivity].
  apply has_keys in Hhas. contradiction.
Qed.

Lemma without_fresh (k : string) (l : list (string * string)) :
  ~ In k (keys l) -> QuickLRU.without k l = l.
Proof.
  induction l as [|[k1 v1] l IH]; intros Hk; [reflexivity|].
  cbn [QuickLRU.without filter fst]. cbn [keys map fst In] in Hk.
  destruct (String.eqb_spec k1 k) as [->|Hne]; [tauto|].
  cbn [negb]. fold (QuickLRU.without k l). rewrite IH; tauto.
Qed.

Lemma without_last (k v : string) (l : list (string * string)) :
  ~ In k (keys l) -> QuickLRU.without k (l ++ [(k, v)]) = l.
Proof.
  intros Hk. unfold QuickLRU.without. rewrite filter_app.
  fold (QuickLRU.without k l). rewrite (without_fresh _ _ Hk).
  cbn [filter fst]. rewrite String.eqb_refl. apply app_nil_r.
Qed.

Lemma lookup_last (k v : string) (l : list (string * string)) :
  ~ In k (keys l) -> QuickLRU.lookup k (l ++ [(k, v)]) = Some v.
Proof.
  unfold QuickLRU.lookup.
  induction l as [|[k1 v1] l IH]; intros Hk.
  - cbn. rewrite String.eqb_refl. reflexivity.
  - cbn [keys map fst In] in Hk. cbn [app find fst].
    destruct (String.eqb_spec k1 k) as [->|Hne]; [tauto|]. apply IH. tauto.
Qed.

Lemma firstn_app_firstn {A} (n m : nat) (a b : list A) :
  (n <= m)%nat -> firstn n (a ++ firstn m b) = firstn n (a ++ b).
Proof.
  revert n. induction a as [|x a IH]; intros n Hnm.
  - cbn [app]. rewrite firstn_firstn, Nat.min_l by exact Hnm. reflexivity.
  - destruct n as [|n]; [reflexivity|]. cbn [app firstn].
    rewrite IH by lia. reflexivity.
Qed.

Lemma In_firstn {A} (n : nat) (x : A) (l : list A) :
  In x (firstn n l) -> In x l.
Proof.
  intros Hin. rewrite <- (firstn_skipn n l). apply in_or_app. left. exact Hin.
Qed.

(** A [set] of a key that is not stored puts it in front and keeps the
    most recent [maxSize] entries. *)
Lemma set_fresh (q : QuickLRU.t) (k v : string) :
  ~ In k (keys (QuickLRU.entries q)) ->
  (List.length (QuickLRU.entries q) <= QuickLRU.maxSize q)%nat ->
  QuickLRU.set q k v =
    {| QuickLRU.maxSize := QuickLRU.maxSize q;
       QuickLRU.entries := firstn (QuickLRU.maxSize q) ((k, v) :: QuickLRU.entries q) |}.
Proof.
  intros Hk Hlen. unfold QuickLRU.set. rewrite (without_fresh _ _ Hk). f_equal.
  destruct (Nat.ltb_spec (QuickLRU.maxSize q)
              (List.length ((k, v) :: QuickLRU.entries q))) as [Hlt|Hge].
  - rewrite removelast_firstn_len. f_equal. cbn [List.length] in *. lia.
  - symmetry. apply firstn_all2. exact Hge.
Qed.

Lemma setAll_cons {C} `{Cache C} (c : C) (kv : string * string)
    (kvs : list (string * string)) :
  setAll c (kv :: kvs) = setAll (set c (fst kv) (snd kv)) kvs.
Proof. reflexivity. Qed.

Lemma setAll_entries (kvs : list (string * string)) :
  forall q,
    NoDup (keys kvs) ->
    (forall k, In k (keys kvs) -> ~ In k (keys (QuickLRU.entries q))) ->
    (List.length (QuickLRU.entries q) <= QuickLRU.maxSize q)%nat ->
    setAll {| cache := q |} kvs =
      {| cache :=
           {| QuickLRU.maxSize := QuickLRU.maxSize q;
              QuickLRU.entries :=
                firstn (QuickLRU.maxSize q) (rev kvs ++ QuickLRU.entries q) |} |}.
Proof.
  induction kvs as [|[k v] kvs IH]; intros q Hnd Hfresh Hlen.
  - cbn. rewrite firstn_all2 by exact Hlen. destruct q; reflexivity.
  - cbn [keys map fst] in Hnd. inversion Hnd as [|? ? Hk Hnd']; subst.
    rewrite setAll_cons. cbn [fst snd].
    change (set {| cache := q |} k v) with {| cache := QuickLRU.set q k v |}.
    rewrite set_fresh; [|apply Hfresh; left; reflexivity|exact Hlen].
    rewrite IH; cbn [QuickLRU.maxSize QuickLRU.entries].
    + rewrite firstn_app_firstn by lia.
      cbn [rev]. rewrite <- app_assoc. reflexivity.
    + exact Hnd'.
    + intros k1 Hk1 Hin. unfold keys in Hin.
      apply in_map_iff in Hin. destruct Hin as [e [He Hin]].
      apply In_firstn in Hin. destruct Hin as [<-|Hin].
      * cbn in He. subst. contradiction.
      * apply (Hfresh k1); [right; exact Hk1|].
        unfold keys. apply in_map_iff. exists e. auto.
    + rewrite length_firstn. lia.
Qed.

Lemma setAll_new (maxSize : nat) (kvs : list (string * string)) :
  NoDup (keys kvs) ->
  setAll (LruCache_new {| props_maxSize := maxSize |}) kvs =
    {| cache := {| QuickLRU.maxSize := maxSize;
                   QuickLRU.entries := firstn maxSize (rev kvs) |} |}.
Proof.
  intros Hnd. unfold LruCache_new, QuickLRU.new. cbn [props_maxSize].
  rewrite setAll_entries; cbn [QuickLRU.maxSize QuickLRU.entries].
  - rewrite app_nil_r. reflexivity.
  - exact Hnd.
  - intros k _ [].
  - apply Nat.le_0_l.
Qed.

(** C10.  A cache of capacity [N] that received [N + 1] distinct keys
    has lost the least recently used one, the first key set, and no
    other.  A [get] refreshes the recency of its key: after the [N] first
    keys, a [get] of the first key makes the next [set] of a new key evict
    the second key instead of the first. *)
Theorem lru_eviction (N : nat) (k0 v0 : string) (rest : list (string * string))
    (k' v' : string)
    (Hdistinct : NoDup (k0 :: keys rest ++ [k']))
    (Hcapacity : N = S (List.length rest)) :
  let new := LruCache_new {| props_maxSize := N |} in
  (let c := setAll new ((k0, v0) :: rest ++ [(k', v')]) in
   has c k0 = false
   /\ forall k, In k (keys rest ++ [k']) -> has c k = true)
  /\ (forall k1 v1 rest', rest = (k1, v1) :: rest' ->
        let full := setAll new ((k0, v0) :: rest) in
        fst (get full k0) = Some v0
        /\ (let c := set (snd (get full k0)) k' v' in
            has c k0 = true
            /\ has c k1 = false
            /\ forall k, In k (keys rest' ++ [k']) -> has c k = true)).
Proof.
  cbn zeta.
  assert (Hk0 : ~ In k0 (keys rest ++ [k'])) by (inversion Hdistinct; assumption).
  assert (Hnd : NoDup (keys rest ++ [k'])) by (inversion Hdistinct; assumption).
  assert (Hndrest : NoDup (keys rest)) by (apply NoDup_app_remove_r in Hnd; exact Hnd).
  assert (Hk' : ~ In k' (keys rest)).
  { apply NoDup_remove_2 in Hnd. rewrite app_nil_r in Hnd. exact Hnd. }
  assert (Hk0rest : ~ In k0 (keys rest)) by (intros Hin; apply Hk0, in_or_app; auto).
  assert (Hk0k' : k0 <> k') by (intros ->; apply Hk0, in_or_app; right; left; reflexivity).
  split.
  - rewrite setAll_new.
    2:{ cbn [keys map fst]. unfold keys in *. rewrite map_app. exact Hdistinct. }
    cbn [has LruCache_Cache]. unfold LruCache_has. cbn [cache].
    assert (He : firstn N (rev ((k0, v0) :: rest ++ [(k', v')])) = (k', v') :: rev rest).
    { cbn [rev]. rewrite rev_app_distr. cbn [rev app].
      subst N. cbn [firstn]. f_equal.
      rewrite firstn_app, length_rev, Nat.sub_diag. cbn [firstn].
      rewrite app_nil_r. apply firstn_all2. rewrite length_rev. lia. }
    rewrite He. split.
    + apply has_not_keys. cbn [QuickLRU.entries keys map fst In].
      intros [Heq|Hin]; [congruence|].
      apply Hk0rest. unfold keys. rewrite map_rev, <- in_rev in Hin. exact Hin.
    + intros k Hin. apply has_keys. cbn [QuickLRU.entries keys map fst In].
      apply in_app_or in Hin. destruct Hin as [Hin|[<-|[]]]; [right|left; reflexivity].
      unfold keys in *. rewrite map_rev, <- in_rev. exact Hin.
  - intros k1 v1 rest' ->.
    rewrite setAll_new.
    2:{ cbn [keys map fst]. constructor; assumption. }
    assert (He : firstn N (rev ((k0, v0) :: (k1, v1) :: rest'))
                 = (rev rest' ++ [(k1, v1)]) ++ [(k0, v0)]).
    { apply firstn_all2. rewrite !length_app, length_rev. cbn [List.length] in *. lia. }
    rewrite He.
    assert (Hfresh0 : ~ In k0 (keys (rev rest' ++ [(k1, v1)]))).
    { intros Hin. apply Hk0rest. unfold keys in *.
      change ((k1, v1) :: rest') with ([(k1, v1)] ++ rest').
      rewrite <- (rev_involutive ([(k1, v1)] ++ rest')), rev_app_distr.
      rewrite map_rev, <- in_rev. exact Hin. }
    cbn [get LruCache_Cache]. unfold LruCache_get, QuickLRU.get. cbn [cache QuickLRU.entries].
    rewrite (lookup_last k0 v0 _ Hfresh0), (without_last k0 v0 _ Hfresh0).
    cbn [fst snd QuickLRU.maxSize]. split; [reflexivity|].
    cbn [set has LruCache_Cache]. unfold LruCache_set, LruCache_has. cbn [cache].
    rewrite set_fresh; cbn [QuickLRU.maxSize QuickLRU.entries].
    + assert (He' : firstn N ((k', v') :: (k0, v0) :: rev rest' ++ [(k1, v1)])
                    = (k', v') :: (k0, v0) :: rev rest').
      { subst N. cbn [List.length firstn]. do 2 f_equal.
        rewrite firstn_app, length_rev, Nat.sub_diag. cbn [firstn].
        rewrite app_nil_r. apply firstn_all2. rewrite length_rev. lia. }
      rewrite He'.
      assert (Hk1 : ~ In k1 (keys rest')).
      { cbn [keys map fst] in Hndrest. inversion Hndrest; assumption. }
      split; [|split].
      * apply has_keys. cbn [QuickLRU.entries keys map fst In]. auto.
      * apply has_not_keys. cbn [QuickLRU.entries keys map fst In].
        intros [Heq|[Heq|Hin]].
        -- apply Hk'. subst. left. reflexivity.
        -- apply Hk0rest. subst. left. reflexivity.
        -- apply Hk1. unfold keys in *. rewrite map_rev, <- in_rev in Hin. exact Hin.
      * intros k Hin. apply has_keys. cbn [QuickLRU.entries keys map fst In].
        apply in_app_or in Hin. destruct Hin as [Hin|[<-|[]]]; [|left; reflexivity].
        right. right. unfold keys in *. rewrite map_rev, <- in_rev. exact Hin.
    + cbn [keys map fst In]. intros [Heq|Hin]; [congruence|].
      apply Hk'. unfold keys in *.
      change ((k1, v1) :: rest') with ([(k1, v1)] ++ rest').
      rewrite <- (rev_involutive ([(k1, v1)] ++ rest')), rev_app_distr.
      rewrite map_rev, <- in_rev. exact Hin.
    + cbn [List.length]. rewrite length_app, length_rev. cbn [List.length] in *. lia.
Qed.

Lemma lru_eviction_witness :
  let new := LruCache_new {| props_maxSize := 2 |} in
  has (setAll new [("a", "1"); ("b", "2"); ("c", "3")]) "a" = false
  /\ has (setAll new [("a", "1"); ("b", "2"); ("c", "3")]) "b" = true
  /\ has (set (snd (get (setAll new [("a", "1"); ("b", "2")]) "a")) "c" "3") "a" = true
  /\ has (set (snd (get (setAll new [("a", "1"); ("b", "2")]) "a")) "c" "3") "b" = false.
Proof.
  assert (Hdistinct : NoDup ["a"; "b"; "c"]%string).
  { repeat constructor; cbn; intuition discriminate. }
  pose proof (lru_eviction 2 "a" "1" [("b", "2")] "c" "3" Hdistinct eq_refl) as H.
  cbn zeta in H. destruct H as [[Ha Hrest] Hget].
  destruct (Hget "b" "2" [] eq_refl) as (_ & Ha' & Hb' & _).
  split; [exact Ha|]. split; [apply Hrest; left; reflexivity|].
  split; [exact Ha'|exact Hb'].
Defined.

End CacheFacts.

(** ** The thumbhash placeholder *)

Module ThumbhashFacts.
Import Cache Thumbhash WidgetExamples.

Section Scheduling.

Context {C : Type} `{Cache C}.
Variable thumbHashToDataURL : string -> string.
Variable idleCallbackDeclared : bool.

(** [decode] always leaves a placeholder image in the state. *)
Lemma decode_src (props : ThumbhashImgProps) (st : State) :
  src (decode thumbHashToDataURL props st) <> None.
Proof.
  unfold decode. destruct (get (cache st) (id (thumbhash props))) as [[s|] c'];
    cbn [src]; discriminate.
Qed.

(** Only [low] is told apart by the scheduling. *)
Lemma step_isLow (p q : ImgPriority) (t : ParsedThumbhash) (st : State) (ev : Event) :
  isLow p = isLow q ->
  step thumbHashToDataURL idleCallbackDeclared {| thumbhash := t; priority := p |} st ev
  = step thumbHashToDataURL idleCallbackDeclared {| thumbhash := t; priority := q |} st ev.
Proof.
  intros Hpq. unfold step. cbn [priority]. rewrite Hpq.
  destruct ev; try reflexivity.
Qed.

(** C5, as amended.  A widget with [priority = high] is scheduled exactly
    as one with [priority = auto].  At the animation frame that follows
    the request the decode runs only if [shouldRender] holds and the
    element is within the viewport enlarged by the root margin; if the
    element is outside, the placeholder is left as it is, an intersection
    observer is armed, and the decode runs when the observer reports an
    intersection while [shouldRender] holds. *)
Theorem high_priority_scheduling (t : ParsedThumbhash) (st : State)
    (Hframe : frameRequested st = true) :
  let props := {| thumbhash := t; priority := high |} in
  (forall st' ev,
     step thumbHashToDataURL idleCallbackDeclared props st' ev
     = step thumbHashToDataURL idleCallbackDeclared {| thumbhash := t; priority := auto |} st' ev)
  /\ step thumbHashToDataURL idleCallbackDeclared props st (AnimationFrame true true)
     = decode thumbHashToDataURL props (frameDone st)
  /\ src (step thumbHashToDataURL idleCallbackDeclared props st (AnimationFrame true true)) <> None
  /\ (forall inViewport,
        step thumbHashToDataURL idleCallbackDeclared props st (AnimationFrame false inViewport) = frameDone st)
  /\ (let waiting := step thumbHashToDataURL idleCallbackDeclared props st (AnimationFrame true false) in
      waiting = setObserving true (frameDone st)
      /\ src waiting = src st
      /\ observing waiting = true
      /\ (forall entries,
            src (step thumbHashToDataURL idleCallbackDeclared props waiting (Intersection (true :: entries) true))
            <> None)
      /\ (forall entries shouldRender,
            step thumbHashToDataURL idleCallbackDeclared props waiting (Intersection (false :: entries) shouldRender)
            = waiting)).
Proof.
  cbn zeta. split; [|split; [|split; [|split]]].
  - intros st' ev. apply step_isLow. reflexivity.
  - cbn. rewrite Hframe. reflexivity.
  - cbn. rewrite Hframe. cbn. apply decode_src.
  - intros inViewport. cbn. rewrite Hframe. reflexivity.
  - assert (Hw : step thumbHashToDataURL idleCallbackDeclared {| thumbhash := t; priority := high |} st
                   (AnimationFrame true false) = setObserving true (frameDone st)).
    { cbn. rewrite Hframe. reflexivity. }
    rewrite Hw. split; [reflexivity|]. split; [reflexivity|]. split; [reflexivity|].
    split.
    + intros entries. cbn. apply decode_src.
    + intros entries shouldRender. reflexivity.
Qed.

End Scheduling.

Lemma high_priority_scheduling_witness :
  let props := {| thumbhash := exampleThumbhash; priority := high |} in
  let st := step exampleDataURL true props (exampleMount high) (Ref true) in
  src (step exampleDataURL true props st (AnimationFrame true true))
    = Some "data:image/png;base64,thumbhash bytes"
  /\ src (step exampleDataURL true props st (AnimationFrame true false)) = None.
Proof.
  cbn zeta.
  pose proof (high_priority_scheduling exampleDataURL true exampleThumbhash
                (step exampleDataURL true {| thumbhash := exampleThumbhash; priority := high |}
                   (exampleMount high) (Ref true)) eq_refl) as Hs.
  cbn zeta in Hs. destruct Hs as (_ & _ & _ & _ & _ & Hsrc & _).
  split; [reflexivity|exact Hsrc].
Defined.

(** C5 as stated fails: with [priority = high] and the element outside
    the viewport, the animation frame passes without a decode; the
    widget waits for the intersection observer. *)
Lemma high_priority_waits_for_intersection :
  let props := {| thumbhash := exampleThumbhash; priority := high |} in
  let st := run exampleDataURL true props (exampleMount high)
              [Ref true; AnimationFrame true false] in
  src (exampleMount high) = None
  /\ frameRequested (step exampleDataURL true props (exampleMount high) (Ref true)) = true
  /\ src st = None
  /\ frameRequested st = false
  /\ observing st = true
  /\ src (run exampleDataURL true props st [AnimationFrame true false; Idle true]) = None
  /\ src (step exampleDataURL true props st (Intersection [true] true))
     = Some "data:image/png;base64,thumbhash bytes".
Proof. repeat split. Qed.

End ThumbhashFacts.

(** ** The image widget *)

Module ImgFacts.
Import Thumbhash Img WidgetExamples.

(** C7.  With exactly one numeric dimension and a thumbhash, the missing
    dimension is the given one combined with the approximate aspect ratio
    and rounded: the height is [Math.round(width / ratio)], the width is
    [Math.round(height * ratio)], quotient and product being those of
    the binary64 numbers.  A width of 200 and a ratio of 2 give a height
    of 100.  The rounding gives the nearest integer, the upper one at a
    tie: a number [(-1)^s * m * 2^e] with [e < 0] becomes the integer [n]
    with [n - 1/2 <= (-1)^s * m * 2^e < n + 1/2], and every other number
    (an integer with [0 <= e], a zero, an infinity, [NaN]) is kept.  Two
    numeric dimensions are used as they are, whatever the thumbhash. *)
Theorem missing_dimension_from_ratio (thumbHashToApproximateAspectRatio : string -> float)
    (t : ParsedThumbhash) (w h : float) :
  let ratio := thumbHashToApproximateAspectRatio (data t) in
  dimensions thumbHashToApproximateAspectRatio (Some w) None (Some t)
    = (Some w, Some (Js.Math_round (w / ratio)%float))
  /\ dimensions thumbHashToApproximateAspectRatio None (Some h) (Some t)
     = (Some (Js.Math_round (h * ratio)%float), Some h)
  /\ (forall x s m e,
        Prim2SF x = S754_finite s m e -> (e < 0)%Z ->
        exists n : Z,
          Js.Math_round x
          = (if (n =? 0)%Z then (if s then (-0)%float else 0%float) else Js.ofInteger n)
          /\ ((2 * n - 1) * 2 ^ (- e) <= 2 * Js.signed s m < (2 * n + 1) * 2 ^ (- e))%Z)
  /\ (forall x,
        match Prim2SF x with
        | S754_finite _ _ e => (0 <= e)%Z
        | _ => True
        end ->
        Js.Math_round x = x)
  /\ (ratio = 2%float ->
      dimensions thumbHashToApproximateAspectRatio (Some 200%float) None (Some t)
        = (Some 200%float, Some 100%float))
  /\ (forall thumbhash,
        dimensions thumbHashToApproximateAspectRatio (Some w) (Some h) thumbhash
          = (Some w, Some h)).
Proof.
  cbn zeta. split; [reflexivity|]. split; [reflexivity|].
  split; [exact JsFacts.Math_round_nearest|].
  split; [exact JsFacts.Math_round_integral|].
  split; [|reflexivity].
  intros Hratio. cbn [dimensions]. rewrite Hratio. reflexivity.
Qed.

Lemma missing_dimension_from_ratio_witness :
  dimensions squareRatio (Some 200%float) None (Some WidgetExamples.exampleThumbhash)
    = (Some 200%float, Some 100%float).
Proof.
  exact (proj1 (proj2 (proj2 (proj2 (proj2
           (missing_dimension_from_ratio squareRatio WidgetExamples.exampleThumbhash
              200 200)))))
           eq_refl).
Defined.

Lemma step_loadingState (st : State) (sig : Signal) :
  loadingState (step st sig)
  = match assigns sig with
    | Some s => s
    | None => loadingState st
    end.
Proof. destruct sig; reflexivity. Qed.

Lemma run_never_back_to_loading (sigs : list Signal) :
  forall st st',
    loadingState st <> loading ->
    run st sigs = Some st' ->
    loadingState st' <> loading.
Proof.
  induction sigs as [|sig sigs IH]; intros st st' Hst Hrun.
  - injection Hrun as <-. exact Hst.
  - cbn [run] in Hrun. destruct (enabled st sig); [|discriminate].
    apply (IH (step st sig) st'); [|exact Hrun].
    rewrite step_loadingState. destruct sig; cbn [assigns]; try discriminate; exact Hst.
Qed.

(** C4, as amended.  The load state starts at [loading].  A
    decode-complete signal assigns [loaded] and a load-failure signal
    assigns [error], in whatever state they arrive; no other signal
    changes the load state.  Hence [loading] is left only by
    loading -> loaded or loading -> error and is never entered again.
    [loaded] is not final: the image element stays mounted there and a
    later load-failure signal moves the widget to [error].  In [error] the
    image element is not mounted, so that it reports neither a load nor a
    failure. *)
Theorem load_state_transitions :
  loadingState initial = loading
  /\ (forall st sig,
        loadingState (step st sig)
        = match sig with
          | DecodeComplete => loaded
          | ErrorEvent => error
          | LoadEvent | DecodeRejected => loadingState st
          end)
  /\ (forall st sig,
        loadingState st = loading ->
        loadingState (step st sig) <> loading ->
        (sig = DecodeComplete /\ loadingState (step st sig) = loaded)
        \/ (sig = ErrorEvent /\ loadingState (step st sig) = error))
  /\ (forall st sigs st',
        loadingState st <> loading ->
        run st sigs = Some st' ->
        loadingState st' <> loading)
  /\ (forall st,
        loadingState st = loaded ->
        enabled st ErrorEvent = true
        /\ loadingState (step st ErrorEvent) = error)
  /\ (forall st,
        loadingState st = error ->
        enabled st LoadEvent = false /\ enabled st ErrorEvent = false).
Proof.
  split; [reflexivity|]. split; [intros st []; reflexivity|].
  split; [|split; [|split]].
  - intros st sig Hst Hne. destruct sig; cbn in *; auto; congruence.
  - intros st sigs st'. apply run_never_back_to_loading.
  - intros st Hst. cbn. rewrite Hst. split; reflexivity.
  - intros st Hst. cbn. rewrite Hst. split; reflexivity.
Qed.

Lemma load_state_transitions_witness :
  loadingState (step initial DecodeComplete) = loaded
  /\ (run (step initial ErrorEvent) [DecodeRejected]
       = Some {| loadingState := error; loadingFailed := true; decoding := 0 |} ->
      error <> loading)
  /\ enabled (step (step initial LoadEvent) DecodeComplete) ErrorEvent = true
  /\ enabled (step initial ErrorEvent) LoadEvent = false.
Proof.
  destruct load_state_transitions as (_ & Hstep & Hfrom & Hback & Hloaded & Herror).
  split; [exact (Hstep initial DecodeComplete)|].
  split.
  - intros Hrun.
    exact (Hback (step initial ErrorEvent) [DecodeRejected] _
             ltac:(discriminate) Hrun).
  - split.
    + exact (proj1 (Hloaded (step (step initial LoadEvent) DecodeComplete) eq_refl)).
    + exact (proj1 (Herror (step initial ErrorEvent) eq_refl)).
Defined.

(** C4 as stated fails: after a successful load and decode the image
    element is still mounted, and a load failure it reports then moves
    the widget out of [loaded]. *)
Lemma loaded_then_error :
  run initial [LoadEvent; DecodeComplete]
    = Some {| loadingState := loaded; loadingFailed := false; decoding := 0 |}
  /\ enabled {| loadingState := loaded; loadingFailed := false; decoding := 0 |} ErrorEvent
     = true
  /\ run initial [LoadEvent; DecodeComplete; ErrorEvent]
     = Some {| loadingState := error; loadingFailed := true; decoding := 0 |}.
Proof. repeat split. Qed.

(** C8, as amended.  A load-failure signal sets the state to [error];
    the error layer is then rendered and the primary image is not, while
    the placeholder layer stays: the thumbhash image when there is a
    thumbhash, the generic placeholder node otherwise, each below the
    error layer.  [shouldRenderThumbhash] holds from then on, so the
    thumbhash is still decoded. *)
Theorem error_layers (st : State) (thumbhash : option ParsedThumbhash) :
  let st' := step st ErrorEvent in
  loadingState st' = error
  /\ loadingFailed st' = true
  /\ render (loadingState st') thumbhash
     = match thumbhash with
       | Some _ => [ThumbhashLayer; ErrorNode]
       | None => [PlaceholderNode; ErrorNode]
       end
  /\ rendered ErrorNode (render (loadingState st') thumbhash) = true
  /\ rendered PrimaryImage (render (loadingState st') thumbhash) = false
  /\ (rendered ThumbhashLayer (render (loadingState st') thumbhash)
      || rendered PlaceholderNode (render (loadingState st') thumbhash)) = true
  /\ (forall imgRef, shouldRenderThumbhash imgRef st' = true).
Proof.
  cbn zeta. cbn [step loadingState loadingFailed].
  split; [reflexivity|]. split; [reflexivity|].
  destruct thumbhash as [t|]; repeat split;
    intros [complete|]; cbn; try reflexivity; apply orb_true_r.
Qed.

(** C8 as stated fails: in the [error] state the placeholder layer is
    rendered, with and without a thumbhash. *)
Lemma placeholder_rendered_on_error :
  loadingState (step initial ErrorEvent) = error
  /\ render (loadingState (step initial ErrorEvent)) (Some WidgetExamples.exampleThumbhash)
     = [ThumbhashLayer; ErrorNode]
  /\ rendered ThumbhashLayer
       (render (loadingState (step initial ErrorEvent))
          (Some WidgetExamples.exampleThumbhash)) = true
  /\ render (loadingState (step initial ErrorEvent)) None = [PlaceholderNode; ErrorNode]
  /\ rendered PlaceholderNode (render (loadingState (step initial ErrorEvent)) None) = true.
Proof. repeat split. Qed.

End ImgFacts.

(** ** The image widget with percentage dimensions *)

Module ImgPercentageFacts.
Import Js Thumbhash ImgPercentage.

(** For a resolved size that is finite, the two comparisons of the
    observer callback are the complement of the band. *)
Lemma outside_band (x previous : Q) :
  gt x (times (3 # 2) (Finite previous)) || lt x (times (3 # 4) (Finite previous))
  = negb (inBand x previous).
Proof.
  unfold gt, lt, times, inBand. rewrite negb_andb. apply orb_comm.
Qed.

(** A size that is a binary64 value is the exact value of its number:
    a whole number of pixels, a fraction of a device pixel, a size past
    2^53. *)
Lemma valueOf_ofRational_sizes :
  valueOf (ofRational 320) = Finite 320
  /\ valueOf (ofRational (201 # 2)) = Finite (201 # 2)
  /\ valueOf (ofRational (1 # 64)) = Finite (1 # 64)
  /\ valueOf (ofRational 0) = Finite 0
  /\ valueOf (ofRational (inject_Z (2 ^ 60))) = Finite (inject_Z (2 ^ 60)).
Proof. repeat split. Qed.

Section Observer.

Variable thumbHashToApproximateAspectRatio : string -> float.

(** With a percentage width and a numeric height, a measured width is
    committed exactly when it is outside the band of the committed one. *)
Lemma width_percentage_resize (text : string) (h w : Q) (thumbhash : option ParsedThumbhash)
    (wrapperHeight : option Q) (newWidth newHeight : Q) :
  onResize thumbHashToApproximateAspectRatio true
    (Some (Percentage text)) (Some (Number h)) thumbhash
    {| width := Some w; height := wrapperHeight |} [(newWidth, newHeight)]
  = if inBand newWidth w
    then {| width := Some w; height := wrapperHeight |}
    else {| width := Some newWidth; height := wrapperHeight |}.
Proof.
  unfold onResize, dimensions.
  cbn [numeric isPercentage negb width height andb orb fold_left observeEntry].
  rewrite outside_band.
  destruct (inBand newWidth w); reflexivity.
Qed.

(** With a numeric width and a percentage height, a measured height is
    committed exactly when it is outside the band of the committed one. *)
Lemma height_percentage_resize (text : string) (w h : Q) (thumbhash : option ParsedThumbhash)
    (wrapperWidth : option Q) (newWidth newHeight : Q) :
  onResize thumbHashToApproximateAspectRatio true
    (Some (Number w)) (Some (Percentage text)) thumbhash
    {| width := wrapperWidth; height := Some h |} [(newWidth, newHeight)]
  = if inBand newHeight h
    then {| width := wrapperWidth; height := Some h |}
    else {| width := wrapperWidth; height := Some newHeight |}.
Proof.
  unfold onResize, dimensions.
  cbn [numeric isPercentage negb width height andb orb fold_left observeEntry].
  rewrite outside_band.
  destruct (inBand newHeight h); reflexivity.
Qed.

(** With two percentages only the measured width is compared: both
    measures are committed when it is outside its band, none otherwise. *)
Lemma both_percentages_resize (textW textH : string) (w h : Q)
    (thumbhash : option ParsedThumbhash) (newWidth newHeight : Q) :
  onResize thumbHashToApproximateAspectRatio true
    (Some (Percentage textW)) (Some (Percentage textH)) thumbhash
    {| width := Some w; height := Some h |} [(newWidth, newHeight)]
  = if inBand newWidth w
    then {| width := Some w; height := Some h |}
    else {| width := Some newWidth; height := Some newHeight |}.
Proof.
  unfold onResize, dimensions.
  cbn [numeric isPercentage negb width height andb orb fold_left observeEntry].
  rewrite outside_band.
  destruct (inBand newWidth w); reflexivity.
Qed.

End Observer.

(** C6, the failing case.  Both dimensions are percentages and 100 by 100
    is committed; the container grows to 100 by 300.  The height 300 is
    outside the band [75, 150] of the committed height, yet nothing is
    committed, because the callback compares the width only; the same
    measure is committed when the width is a number. *)
Theorem both_percentages_height_not_committed :
  let committed := {| width := Some 100; height := Some 100 |} in
  measure (Some (Percentage "100%")) (Some (Percentage "100%"))
    {| width := None; height := None |} (Some (100, 100)) = committed
  /\ inBand 300 100 = false
  /\ inBand 100 100 = true
  /\ dimensions WidgetExamples.squareRatio (Some (Percentage "100%")) (Some (Percentage "100%"))
       None committed = (Some (Finite 100), Some (Finite 100))
  /\ onResize WidgetExamples.squareRatio true (Some (Percentage "100%")) (Some (Percentage "100%"))
       None committed [(100, 300)] = committed
  /\ onResize WidgetExamples.squareRatio true (Some (Number 100)) (Some (Percentage "100%"))
       None committed [(100, 300)] = {| width := Some 100; height := Some 300 |}.
Proof. repeat split. Qed.

End ImgPercentageFacts.

(** ** Further properties of the mutation URL builder *)

Module FilejetImgCoverage.
Import Js FilejetImg JsFacts FilejetImgFacts Examples Vocabulary.

Section Builder.

Variable Number_toString : float -> string.

#[local] Abbreviation scaled := (FilejetImg.scaled Number_toString).
#[local] Abbreviation resize := (FilejetImg.resize Number_toString).
#[local] Abbreviation imgSrc_mutation := (FilejetImg.imgSrc_mutation Number_toString).
#[local] Abbreviation imgSrc URL_href := (FilejetImg.imgSrc URL_href Number_toString).
#[local] Abbreviation srcSetEntries URL_href :=
  (FilejetImg.srcSetEntries URL_href Number_toString).
#[local] Abbreviation filejetImg URL_href := (FilejetImg.filejetImg URL_href Number_toString).

(** [trimEnd] removes nothing before a text that keeps a character. *)
Lemma trimEnd_app_keep (a b : string) :
  isEmpty (trimEnd b) = false -> trimEnd (a ++ b) = a ++ trimEnd b.
Proof.
  intros Hb. induction a as [|x a IH]; [reflexivity|].
  cbn [append trimEnd]. rewrite IH.
  replace (isEmpty (a ++ trimEnd b)) with false
    by (destruct a; [symmetry; exact Hb|reflexivity]).
  rewrite andb_false_r. reflexivity.
Qed.

(** A clause that starts with [resize_] and ends with a suffix that is
    not blank is left as it is by [trim]. *)
Lemma trim_resize_clause (middle suffix : string) :
  isEmpty (trimEnd suffix) = false -> trimEnd suffix = suffix ->
  trim ("resize_" ++ middle ++ suffix) = "resize_" ++ middle ++ suffix.
Proof.
  intros Hne Hid. unfold trim. cbn [append trimStart]. cbn.
  change (String "r" (String "e" (String "s" (String "i" (String "z" (String "e"
            (String "_" (middle ++ suffix))))))))
    with (("resize_" ++ middle) ++ suffix).
  rewrite (trimEnd_app_keep _ _ Hne), Hid. reflexivity.
Qed.

Lemma imgSrc_mutation_clause props scale clause :
  resize (width props) (height props) scale (fit props) (backgroundColor props)
    = Ok (Some clause) ->
  trim clause = clause ->
  imgSrc_mutation props scale = Ok (Some (clause ++ remaining (mutation props))).
Proof.
  intros Hr Htrim. rewrite (imgSrc_mutation_resized _ _ _ _ Hr).
  destruct (mutation props) as [e|];
    cbn [Helpers.filterNotNil app map join]; rewrite Htrim; reflexivity.
Qed.

(** X1.  With [fit = cover] and one dimension, the mutation string is
    [resize_{A}min] for a width and [resize_x{B}min] for a height, where
    [A] and [B] are [Math.round] of the binary64 product of dimension
    and scale factor, written as a template literal writes a number,
    followed by the trimmed extra mutation, when present, and [auto]. *)
Theorem cover_one_dimension (props : FilejetImgProps) (scale x : float)
    (Hfit : fit props = cover) :
  (width props = Some x -> height props = None ->
     imgSrc_mutation props scale
       = Ok (Some ("resize_" ++ scaled x scale ++ "min" ++ remaining (mutation props))))
  /\ (width props = None -> height props = Some x ->
        imgSrc_mutation props scale
          = Ok (Some ("resize_x" ++ scaled x scale ++ "min" ++ remaining (mutation props)))).
Proof.
  split; intros Hw Hh.
  - rewrite (imgSrc_mutation_clause props scale ("resize_" ++ scaled x scale ++ "min")).
    + string_norm. reflexivity.
    + rewrite Hw, Hh, Hfit. reflexivity.
    + apply trim_resize_clause; reflexivity.
  - rewrite (imgSrc_mutation_clause props scale ("resize_x" ++ scaled x scale ++ "min")).
    + string_norm. reflexivity.
    + rewrite Hw, Hh, Hfit. reflexivity.
    + apply (trim_resize_clause ("x" ++ scaled x scale) "min"); reflexivity.
Qed.

(** X2.  With [fit = contain] the mutation string is
    [resize_{A}x{B}shrink] for two dimensions, [resize_{A}shrink] for a
    width and [resize_x{B}shrink] for a height, followed by the trimmed
    extra mutation, when present, and [auto]; no [fit_] or [bg_] clause is
    written and the background colour has no effect. *)
Theorem contain_mutation (props : FilejetImgProps) (scale : float)
    (Hfit : fit props = contain) :
  (forall w h, width props = Some w -> height props = Some h ->
     imgSrc_mutation props scale
       = Ok (Some ("resize_" ++ scaled w scale ++ "x" ++ scaled h scale ++ "shrink"
                   ++ remaining (mutation props))))
  /\ (forall w, width props = Some w -> height props = None ->
        imgSrc_mutation props scale
          = Ok (Some ("resize_" ++ scaled w scale ++ "shrink"
                      ++ remaining (mutation props))))
  /\ (forall h, width props = None -> height props = Some h ->
        imgSrc_mutation props scale
          = Ok (Some ("resize_x" ++ scaled h scale ++ "shrink"
                      ++ remaining (mutation props)))).
Proof.
  split; [|split].
  - intros w h Hw Hh.
    rewrite (imgSrc_mutation_clause props scale
               ("resize_" ++ scaled w scale ++ "x" ++ scaled h scale ++ "shrink")).
    + string_norm. reflexivity.
    + rewrite Hw, Hh, Hfit. reflexivity.
    + replace (scaled w scale ++ "x" ++ scaled h scale ++ "shrink")
        with ((scaled w scale ++ "x" ++ scaled h scale) ++ "shrink")
        by (string_norm; reflexivity).
      apply (trim_resize_clause (scaled w scale ++ "x" ++ scaled h scale) "shrink");
        reflexivity.
  - intros w Hw Hh.
    rewrite (imgSrc_mutation_clause props scale ("resize_" ++ scaled w scale ++ "shrink")).
    + string_norm. reflexivity.
    + rewrite Hw, Hh, Hfit. reflexivity.
    + apply trim_resize_clause; reflexivity.
  - intros h Hw Hh.
    rewrite (imgSrc_mutation_clause props scale ("resize_x" ++ scaled h scale ++ "shrink")).
    + string_norm. reflexivity.
    + rewrite Hw, Hh, Hfit. reflexivity.
    + apply (trim_resize_clause ("x" ++ scaled h scale) "shrink"); reflexivity.
Qed.

Lemma join_snoc (sep : string) (l : list string) (x : string) :
  join sep (l ++ [x])
  = match l with
    | [] => x
    | _ => join sep l ++ sep ++ x
    end.
Proof.
  induction l as [|p l IH]; [reflexivity|].
  destruct l as [|q l]; [reflexivity|].
  change (join sep ((p :: q :: l) ++ [x])) with (p ++ sep ++ join sep ((q :: l) ++ [x])).
  rewrite IH. change (join sep (p :: q :: l)) with (p ++ sep ++ join sep (q :: l)).
  cbv iota. rewrite ?append_assoc. reflexivity.
Qed.

(** X3.  Every URL the builder returns is
    [https://{domain}/{segment}/{clauses}auto]: its last clause is [auto],
    and what precedes it in the mutation string is empty or ends with a
    comma.  For a source reference without external prefix the segment is
    the reference itself. *)
Theorem url_ends_in_auto (URL_href : string -> option string)
    (props : FilejetImgProps) (scale : float) (url : string)
    (Hurl : imgSrc URL_href props scale = Ok url) :
  exists segment clauses,
    url = "https://" ++ filejetDomain props ++ "/" ++ segment ++ "/" ++ clauses ++ "auto"
    /\ imgSrc_mutation props scale = Ok (Some (clauses ++ "auto"))
    /\ (clauses = "" \/ exists c, clauses = c ++ ",")
    /\ (isExternal (src props) = false -> segment = src props).
Proof.
  destruct (resize_returns Number_toString (width props) (height props) scale (fit props)
              (backgroundColor props)) as [r Hr].
  pose proof (imgSrc_mutation_resized Number_toString props scale r Hr) as Hm.
  assert (Hc : exists clauses,
             join "," (map trim (Helpers.filterNotNil [r; mutation props] ++ ["auto"]))
             = clauses ++ "auto"
             /\ (clauses = "" \/ exists c, clauses = c ++ ",")).
  { rewrite map_app. change (map trim ["auto"]) with ["auto"]. rewrite join_snoc.
    destruct (map trim (Helpers.filterNotNil [r; mutation props])) as [|p l].
    - exists "". split; [reflexivity|]. left. reflexivity.
    - exists (join "," (p :: l) ++ ","). split; [rewrite append_assoc; reflexivity|].
      right. eexists. reflexivity. }
  destruct Hc as (clauses & Hjoin & Hshape).
  rewrite Hjoin in Hm. unfold FilejetImg.imgSrc in Hurl. rewrite Hm in Hurl. cbn [bind interpolate] in Hurl.
  destruct (isExternal (src props)).
  - destruct (URL_href (src props)) as [href|]; [|discriminate].
    injection Hurl as <-.
    exists ("@ext_" ++ Helpers.base64UrlEncode href), clauses.
    split; [reflexivity|]. split; [exact Hm|]. split; [exact Hshape|discriminate].
  - injection Hurl as <-. exists (src props), clauses.
    split; [reflexivity|]. split; [exact Hm|]. split; [exact Hshape|reflexivity].
Qed.

(** The URL of a scale factor, when there is one. *)
Lemma imgSrc_succeeds URL_href props :
  isExternal (src props) = false \/ URL_href (src props) <> None ->
  forall scale, exists url, imgSrc URL_href props scale = Ok url.
Proof.
  intros Hok scale.
  destruct (imgSrc URL_href props scale) as [url|e] eqn:Hurl; [eexists; reflexivity|].
  destruct (imgSrc_throws _ _ _ _ _ Hurl) as (_ & Hext & Hnone).
  destruct Hok as [Hint|Hsome]; [congruence|contradiction].
Qed.

Lemma srcSetEntries_map URL_href props (urlOf : float -> string) scales :
  (forall scale, imgSrc URL_href props scale = Ok (urlOf scale)) ->
  srcSetEntries URL_href props scales
  = Ok (map (fun scale =>
               urlOf scale ++ " " ++ numberToString Number_toString scale ++ "x") scales).
Proof.
  intros Hurl. induction scales as [|scale scales IH]; [reflexivity|].
  cbn [FilejetImg.srcSetEntries map]. rewrite Hurl, IH. reflexivity.
Qed.

(** X4.  [filejetImg] fails only as a whole and only because of the
    source reference: if the reference has no external prefix, or the URL
    constructor accepts it, every scale factor has a URL, [src] is the
    URL of scale 1, [srcSet] lists [{url} {scale}x] for every factor of
    [dpiScale] in order, joined with a comma and a space (the empty
    string when [dpiScale] is empty), and [width] and [height] are the
    requested ones; otherwise the call throws, whatever the dimensions.
    The scale factor of a descriptor is written as a template literal
    writes a number. *)
Theorem filejetImg_result (URL_href : string -> option string) (props : FilejetImgProps) :
  (isExternal (src props) = false \/ URL_href (src props) <> None ->
     exists urlOf : float -> string,
       (forall scale, imgSrc URL_href props scale = Ok (urlOf scale))
       /\ filejetImg URL_href props
          = Ok {| html_src := urlOf 1%float;
                  html_srcSet :=
                    Some (join ", "
                            (map (fun scale =>
                                    urlOf scale ++ " "
                                    ++ numberToString Number_toString scale ++ "x")
                               (dpiScale props)));
                  html_width := width props;
                  html_height := height props |})
  /\ (isExternal (src props) = true -> URL_href (src props) = None ->
        filejetImg URL_href props = Throw InvalidURL).
Proof.
  split.
  - intros Hok.
    exists (fun scale => match imgSrc URL_href props scale with
                         | Ok url => url
                         | Throw _ => ""
                         end).
    assert (Hall : forall scale,
              imgSrc URL_href props scale
              = Ok (match imgSrc URL_href props scale with
                    | Ok url => url
                    | Throw _ => ""
                    end)).
    { intros scale. destruct (imgSrc_succeeds URL_href props Hok scale) as [url Hurl].
      rewrite Hurl. reflexivity. }
    split; [exact Hall|].
    unfold FilejetImg.filejetImg. rewrite (Hall 1%float). cbn [bind].
    rewrite (srcSetEntries_map URL_href props _ (dpiScale props) Hall).
    reflexivity.
  - intros Hext Hnone.
    destruct (resize_returns Number_toString (width props) (height props) 1 (fit props)
                (backgroundColor props)) as [r Hr].
    unfold FilejetImg.filejetImg, FilejetImg.imgSrc.
    rewrite (imgSrc_mutation_resized Number_toString props 1 r Hr). cbn [bind].
    rewrite Hext, Hnone. reflexivity.
Qed.

(** X5.  The dimensions written in a URL are rounded after scaling, on
    the binary64 product of dimension and scale factor.  A product that
    is a zero, an infinity, [NaN] or [(-1)^s * m * 2^e] with [0 <= e],
    which is an integer, is written as it is.  Any other product
    [(-1)^s * m * 2^e] is written as the integer [n] with
    [n - 1/2 <= (-1)^s * m * 2^e < n + 1/2], the upper one at a tie, and
    as [0] when [n] is zero, also for a negative product.  Equal products
    give equal clauses.  5 * 1.7 is written 9; 50 * 1.15, which is below
    57.5 in binary64, is written 57; -5 * 0.5 is written -2. *)
Theorem scaled_dimension_rounding (d s : float) :
  (match Prim2SF (d * s)%float with
   | S754_finite _ _ e => (0 <= e)%Z
   | _ => True
   end ->
   scaled d s = numberToString Number_toString (d * s)%float)
  /\ (forall sign m e,
        Prim2SF (d * s)%float = S754_finite sign m e -> (e < 0)%Z ->
        exists n : Z,
          ((2 * n - 1) * 2 ^ (- e) <= 2 * signed sign m < (2 * n + 1) * 2 ^ (- e))%Z
          /\ scaled d s
             = numberToString Number_toString
                 (if (n =? 0)%Z then (if sign then (-0)%float else 0%float)
                  else ofInteger n)
          /\ (n = 0%Z -> scaled d s = "0"))
  /\ (forall d' s' fit bg,
        (d * s)%float = (d' * s')%float ->
        resize (Some d) None s fit bg = resize (Some d') None s' fit bg)
  /\ scaled 5 1.7 = "9"
  /\ scaled 50 1.15 = "57"
  /\ scaled (-5) 0.5 = "-2"
  /\ scaled (-1) 0.25 = "0".
Proof.
  split; [|split; [|split; [|repeat split]]].
  - intros Hint. unfold FilejetImg.scaled. rewrite (Math_round_integral _ Hint). reflexivity.
  - intros sign m e Hx He.
    destruct (Math_round_nearest _ sign m e Hx He) as (n & Hround & Hbounds).
    exists n. split; [exact Hbounds|]. unfold FilejetImg.scaled. rewrite Hround.
    split; [reflexivity|]. intros ->. destruct sign; reflexivity.
  - intros d' s' fit bg Heq.
    destruct fit; cbn [FilejetImg.resize]; unfold FilejetImg.scaled; rewrite Heq; reflexivity.
Qed.

Lemma split_no_separator (c : ascii) (s : string) :
  contains c s = false -> split c s = [s].
Proof.
  induction s as [|d s IH]; [reflexivity|].
  cbn [contains split]. intros H. apply orb_false_iff in H. destruct H as [Hd Hs].
  rewrite Hd, (IH Hs). reflexivity.
Qed.

Lemma split_join (c : ascii) (p : string) (l : list string) :
  forallb (fun part => negb (contains c part)) (p :: l) = true ->
  split c (join (String c "") (p :: l)) = p :: l.
Proof.
  revert p. induction l as [|q l IH]; intros p Hall; cbn [forallb] in Hall;
    apply andb_true_iff in Hall; destruct Hall as [Hp Hl]; apply negb_true_iff in Hp.
  - apply split_no_separator, Hp.
  - change (join (String c "") (p :: q :: l))
      with (p ++ String c (join (String c "") (q :: l))).
    rewrite split_app, (split_no_separator _ _ Hp), (IH q Hl). reflexivity.
Qed.

(** X6.  Splitting the result of [combineMutations] at the commas gives
    the trimmed present parts back, in order, provided at least one part
    is present and no trimmed part contains a comma. *)
Theorem combineMutations_split (mutations : list (option string))
    (Hpresent : Helpers.filterNotNil mutations <> [])
    (Hcommas : forallb (fun part => negb (contains "," (trim part)))
                 (Helpers.filterNotNil mutations) = true) :
  exists combined,
    combineMutations mutations = Some combined
    /\ split "," combined = map trim (Helpers.filterNotNil mutations).
Proof.
  destruct mutations as [|m mutations]; [contradiction Hpresent; reflexivity|].
  eexists. split; [reflexivity|].
  destruct (Helpers.filterNotNil (m :: mutations)) as [|p l]; [contradiction|].
  cbn [map]. apply split_join. cbn [forallb map] in *.
  apply andb_true_iff in Hcommas. destruct Hcommas as [Hp Hl].
  rewrite Hp. cbn [andb]. rewrite forallb_forall in *.
  intros part Hin. apply in_map_iff in Hin. destruct Hin as (q & <- & Hq). apply Hl, Hq.
Qed.

Lemma contains_app (c : ascii) (a b : string) :
  contains c (a ++ b) = contains c a || contains c b.
Proof.
  induction a as [|x a IH]; [reflexivity|].
  cbn [append contains]. rewrite IH, orb_assoc. reflexivity.
Qed.

Lemma contains_trimEnd (c : ascii) (s : string) :
  contains c s = false -> contains c (trimEnd s) = false.
Proof.
  induction s as [|d s IH]; [reflexivity|].
  cbn [contains trimEnd]. intros H. apply orb_false_iff in H. destruct H as [Hd Hs].
  destruct (isWhiteSpace d && isEmpty (trimEnd s)); [reflexivity|].
  cbn [contains]. rewrite Hd, (IH Hs). reflexivity.
Qed.

Lemma contains_trimStart (c : ascii) (s : string) :
  contains c s = false -> contains c (trimStart s) = false.
Proof.
  induction s as [|d s IH]; [reflexivity|].
  cbn [trimStart]. intros H. destruct (isWhiteSpace d); [|exact H].
  cbn [contains] in H. apply orb_false_iff in H. apply IH, H.
Qed.

Lemma uint_no_comma (d : Decimal.uint) :
  contains "," (NilEmpty.string_of_uint d) = false.
Proof. induction d; cbn; auto. Qed.

(** An integer is written with digits and a sign only. *)
Lemma decimal_digits (n : Z) :
  contains "," (decimal n) = false /\ isEmpty (decimal n) = false.
Proof.
  unfold decimal, NilZero.string_of_int.
  assert (Hu : forall d, contains "," (NilZero.string_of_uint d) = false
                         /\ isEmpty (NilZero.string_of_uint d) = false).
  { intros d. split.
    - destruct d; try apply (uint_no_comma (_ d)); reflexivity.
    - destruct d; reflexivity. }
  destruct (Z.to_int n) as [d|d]; destruct (Hu d) as [Hc He].
  - split; assumption.
  - split; [cbn [contains]; rewrite Hc; reflexivity|reflexivity].
Qed.

Lemma noEmptyClause_plain (s : string) :
  contains "," s = false -> isEmpty s = false -> noEmptyClause s = true.
Proof.
  intros Hc He. unfold noEmptyClause. rewrite (split_no_separator _ _ Hc).
  cbn [forallb]. rewrite He. reflexivity.
Qed.

Lemma trim_keeps_head (c : ascii) (r : string) :
  isWhiteSpace c = false -> isEmpty (trim (String c r)) = false.
Proof.
  intros Hc. unfold trim. cbn [trimStart]. rewrite Hc. cbn [trimEnd]. rewrite Hc.
  reflexivity.
Qed.

Lemma resize_clause_wellformed (rest : string) :
  contains "," rest = false ->
  noEmptyClause (trim ("resize_" ++ rest)) = true.
Proof.
  intros Hrest. apply noEmptyClause_plain.
  - unfold trim. apply contains_trimEnd, contains_trimStart.
    rewrite contains_app, Hrest. reflexivity.
  - apply trim_keeps_head. reflexivity.
Qed.

Section Printer.

(** The platform writes a number without a comma, and never as the empty
    string. *)
Hypothesis Number_toString_plain :
  forall x, contains "," (Number_toString x) = false
            /\ isEmpty (Number_toString x) = false.

Lemma scaled_no_comma (d s : float) : contains "," (scaled d s) = false.
Proof.
  unfold FilejetImg.scaled, numberToString.
  destruct (integerOf _) as [n|]; [|apply Number_toString_plain].
  destruct (Z.abs n <? 2 ^ 53)%Z; [apply decimal_digits|apply Number_toString_plain].
Qed.

(** X7.  When the platform writes numbers without a comma, the
    background colour holds no comma and the extra mutation is absent or
    free of empty clauses once trimmed, the mutation string of every
    request and scale factor is a well-formed list: no clause of it is
    empty, so it has no leading, trailing or doubled comma. *)
Theorem mutation_wellformed (props : FilejetImgProps) (scale : float)
    (Hbg : contains "," (backgroundColor props) = false)
    (Hextra : match mutation props with
              | Some e => noEmptyClause (trim e) = true
              | None => True
              end) :
  exists m, imgSrc_mutation props scale = Ok (Some m) /\ noEmptyClause m = true.
Proof.
  destruct (resize_returns Number_toString (width props) (height props) scale (fit props)
              (backgroundColor props)) as [r Hr].
  eexists. split; [exact (imgSrc_mutation_resized Number_toString props scale r Hr)|].
  assert (Hresized : match r with
                     | Some clause => noEmptyClause (trim clause) = true
                     | None => True
                     end).
  { destruct (width props) as [w|], (height props) as [h|], (fit props);
      try (cbn [FilejetImg.resize] in Hr; injection Hr as <-;
           first [exact I
                 | apply resize_clause_wellformed;
                   repeat first [ rewrite contains_app
                                | rewrite scaled_no_comma
                                | progress cbn [contains append orb andb Ascii.eqb Bool.eqb] ];
                   reflexivity]).
    rewrite resize_cover_both in Hr. injection Hr as <-. cbv beta iota.
    pose proof (trim_cover_clauses (scaled w scale) (scaled h scale)
                  (backgroundColor props)) as Htrim.
    repeat (progress (rewrite ?append_assoc in Htrim; cbn [append] in Htrim)).
    string_norm. rewrite Htrim.
    match goal with
    | |- noEmptyClause ?t = true =>
        replace t
          with (("resize_" ++ scaled w scale ++ "x" ++ scaled h scale ++ "min")
                ++ "," ++ ("fit_" ++ scaled w scale ++ "x" ++ scaled h scale)
                ++ "," ++ ("bg_" ++ trimEnd (backgroundColor props)))
          by (string_norm; reflexivity)
    end.
    rewrite !noEmptyClause_app.
    rewrite !andb_true_iff. repeat split.
    + apply noEmptyClause_plain;
        [repeat first [ rewrite contains_app
                      | rewrite scaled_no_comma
                      | progress cbn [contains append orb andb Ascii.eqb Bool.eqb] ];
         reflexivity|].
      string_norm. reflexivity.
    + apply noEmptyClause_plain;
        [repeat first [ rewrite contains_app
                      | rewrite scaled_no_comma
                      | progress cbn [contains append orb andb Ascii.eqb Bool.eqb] ];
         reflexivity|].
      string_norm. reflexivity.
    + apply noEmptyClause_plain; [|reflexivity].
      cbn [append contains orb Ascii.eqb Bool.eqb andb].
      apply contains_trimEnd, Hbg. }
  destruct r as [clause|], (mutation props) as [e|];
    cbn [Helpers.filterNotNil app map]; rewrite noEmptyClause_join; cbn [forallb];
    rewrite ?Hresized, ?Hextra; reflexivity.
Qed.

End Printer.

End Builder.

Lemma cover_one_dimension_witness :
  imgSrc_mutation showScale (request cover (Some 100%float) None None) 1.5
    = Ok (Some "resize_150min,auto")
  /\ imgSrc_mutation showScale (request cover None (Some 168%float) (Some " flip ")) 2
     = Ok (Some "resize_x336min,flip,auto").
Proof.
  split.
  - exact (proj1 (cover_one_dimension showScale (request cover (Some 100%float) None None)
                    1.5 100 eq_refl) eq_refl eq_refl).
  - exact (proj2 (cover_one_dimension showScale
                    (request cover None (Some 168%float) (Some " flip "))
                    2 168 eq_refl) eq_refl eq_refl).
Defined.

Lemma contain_mutation_witness :
  imgSrc_mutation showScale (request contain (Some 128%float) (Some 64%float) None) 1.5
    = Ok (Some "resize_192x96shrink,auto")
  /\ imgSrc_mutation showScale (request contain (Some 128%float) None None) 1
     = Ok (Some "resize_128shrink,auto")
  /\ imgSrc_mutation showScale (request contain None (Some 64%float) None) 2
     = Ok (Some "resize_x128shrink,auto").
Proof.
  split; [|split].
  - exact (proj1 (contain_mutation showScale
                    (request contain (Some 128%float) (Some 64%float) None)
                    1.5 eq_refl) 128%float 64%float eq_refl eq_refl).
  - exact (proj1 (proj2 (contain_mutation showScale
                           (request contain (Some 128%float) None None)
                           1 eq_refl)) 128%float eq_refl eq_refl).
  - exact (proj2 (proj2 (contain_mutation showScale
                           (request contain None (Some 64%float) None)
                           2 eq_refl)) 64%float eq_refl eq_refl).
Defined.

Lemma url_ends_in_auto_witness :
  exists segment clauses,
    "https://cdn.myapp.com/KRhBC0tycdeENyP1PQkgBA/resize_128x128min,fit_128x128,bg_transparent,auto"
    = "https://" ++ filejetDomain exampleProps ++ "/" ++ segment ++ "/" ++ clauses ++ "auto"
    /\ imgSrc_mutation showScale exampleProps 1 = Ok (Some (clauses ++ "auto"))
    /\ (clauses = "" \/ exists c, clauses = c ++ ",")
    /\ (isExternal (src exampleProps) = false -> segment = src exampleProps).
Proof.
  exact (url_ends_in_auto showScale absolute exampleProps 1 _ eq_refl).
Defined.

Lemma filejetImg_result_witness :
  filejetImg absolute showScale exampleProps
  = Ok {| html_src :=
            "https://cdn.myapp.com/KRhBC0tycdeENyP1PQkgBA/resize_128x128min,fit_128x128,bg_transparent,auto";
          html_srcSet :=
            Some "https://cdn.myapp.com/KRhBC0tycdeENyP1PQkgBA/resize_128x128min,fit_128x128,bg_transparent,auto 1x, https://cdn.myapp.com/KRhBC0tycdeENyP1PQkgBA/resize_192x192min,fit_192x192,bg_transparent,auto 1.5x, https://cdn.myapp.com/KRhBC0tycdeENyP1PQkgBA/resize_256x256min,fit_256x256,bg_transparent,auto 2x";
          html_width := Some 128%float;
          html_height := Some 128%float |}
  /\ filejetImg rejecting showScale externalProps = Throw InvalidURL.
Proof.
  destruct (filejetImg_result showScale absolute exampleProps) as [Hok _].
  destruct (filejetImg_result showScale rejecting externalProps) as [_ Hfail].
  split; [|exact (Hfail eq_refl eq_refl)].
  destruct (Hok (or_introl eq_refl)) as (urlOf & Hurl & Hres).
  rewrite Hres. cbn [dpiScale exampleProps map].
  pose proof (Hurl 1%float) as H1. pose proof (Hurl 1.5%float) as H2.
  pose proof (Hurl 2%float) as H3.
  injection H1 as <-. injection H2 as <-. injection H3 as <-. reflexivity.
Defined.

Lemma scaled_dimension_rounding_witness :
  (exists n : Z,
     ((2 * n - 1) * 2 ^ 49 <= 2 * 4785074604081152 < (2 * n + 1) * 2 ^ 49)%Z
     /\ scaled showScale 5 1.7
        = numberToString showScale (if (n =? 0)%Z then 0%float else ofInteger n))
  /\ scaled showScale infinity 1 = numberToString showScale infinity
  /\ scaled showScale 5 1.7 = "9".
Proof.
  destruct (scaled_dimension_rounding showScale 5 1.7)
    as (_ & Hnearest & _ & Hexample & _).
  destruct (Hnearest false 4785074604081152%positive (-49)%Z eq_refl eq_refl)
    as (n & Hbounds & Hscaled & _).
  split; [exists n; split; [exact Hbounds|exact Hscaled]|].
  split; [|exact Hexample].
  exact (proj1 (scaled_dimension_rounding showScale infinity 1) I).
Defined.

Lemma combineMutations_split_witness :
  exists combined,
    combineMutations [Some "resize_10min"; None; Some " flip "; Some "auto"] = Some combined
    /\ split "," combined = ["resize_10min"; "flip"; "auto"].
Proof.
  exact (combineMutations_split [Some "resize_10min"; None; Some " flip "; Some "auto"]
           ltac:(discriminate) eq_refl).
Defined.

Lemma showScale_plain (x : float) :
  contains "," (showScale x) = false /\ isEmpty (showScale x) = false.
Proof.
  unfold showScale.
  destruct (x =? 1.5)%float; [split; reflexivity|].
  destruct (is_nan x); [split; reflexivity|].
  destruct (x =? infinity)%float; [split; reflexivity|].
  destruct (x =? neg_infinity)%float; split; reflexivity.
Qed.

Lemma mutation_wellformed_witness :
  exists m,
    imgSrc_mutation showScale
      (request cover (Some 128%float) (Some 64%float) (Some " flip,blur_5 ")) 1.5
      = Ok (Some m)
    /\ noEmptyClause m = true.
Proof.
  exact (mutation_wellformed showScale showScale_plain
           (request cover (Some 128%float) (Some 64%float) (Some " flip,blur_5 "))
           1.5 eq_refl eq_refl).
Defined.

End FilejetImgCoverage.

(** ** Further properties of the base64 helpers *)

Module HelpersCoverage.
Import Js Base64 Base64Facts Vocabulary.

(** X8.  [base64UrlEncode] is injective: two different texts never get
    the same encoding, so two different absolute URLs never share a path
    segment. *)
Theorem base64UrlEncode_injective (a b : string) (Hab : a <> b) :
  Helpers.base64UrlEncode a <> Helpers.base64UrlEncode b.
Proof.
  intros Heq. apply Hab.
  destruct (base64Url_roundtrip a) as (_ & Ha & _).
  destruct (base64Url_roundtrip b) as (_ & Hb & _).
  rewrite Heq in Ha. congruence.
Qed.

Lemma base64UrlEncode_injective_witness :
  Helpers.base64UrlEncode "https://myapp.com/a.jpg"
  <> Helpers.base64UrlEncode "https://myapp.com/b.jpg".
Proof.
  exact (base64UrlEncode_injective "https://myapp.com/a.jpg" "https://myapp.com/b.jpg"
           ltac:(discriminate)).
Defined.

Lemma stringOfUrlSextets_length (l : list N) :
  String.length (stringOfUrlSextets l) = List.length l.
Proof. induction l; cbn [stringOfUrlSextets String.length List.length]; congruence. Qed.

Lemma sextetsOfBytes_count (s : string) :
  List.length (sextetsOfBytes s) = ((4 * String.length s + 2) / 3)%nat.
Proof.
  induction s as [|a|a b|a b c rest IH] using bytes_ind3; try reflexivity.
  cbn [sextetsOfBytes List.length String.length]. rewrite IH.
  replace (4 * S (S (S (String.length rest))) + 2)%nat
    with ((4 * String.length rest + 2) + 4 * 3)%nat by lia.
  rewrite Nat.div_add by discriminate. lia.
Qed.

(** X9.  The encoding of a text of [n] bytes has exactly
    [(4 * n + 2) / 3] characters (rounded down): four characters for
    three bytes, two or three for a last group of one or two bytes, and
    nothing for the padding. *)
Theorem base64UrlEncode_length (s : string) :
  String.length (Helpers.base64UrlEncode s) = ((4 * String.length s + 2) / 3)%nat.
Proof.
  rewrite base64UrlEncode_sextets, stringOfUrlSextets_length. apply sextetsOfBytes_count.
Qed.

Lemma standard_chars (l : list N) (k : nat) :
  Forall (fun n => (n < 64)%N) l ->
  replaceAll "_" "/" (replaceAll "-" "+" (stringOfSextets l ++ padding k))
  = stringOfSextets l ++ padding k.
Proof.
  induction 1 as [|n l Hn Hl IH].
  - destruct (padding_cases k) as [-> | [-> | ->]]; reflexivity.
  - cbn [stringOfSextets append replaceAll]. fold (plainChar (encodeSextet n)).
    pose proof (below_forallb 64 standardCheck ltac:(vm_compute; reflexivity) n Hn) as Hc.
    apply Ascii.eqb_eq in Hc. rewrite Hc, IH. reflexivity.
Qed.

(** X10.  [base64UrlDecode] also reads standard base64: the output of
    [btoa], with [+], [/] and the padding, decodes to the original text. *)
Theorem base64UrlDecode_standard (s : string) :
  Helpers.base64UrlDecode (btoa s) = Some s.
Proof.
  unfold Helpers.base64UrlDecode, btoa.
  rewrite (standard_chars _ _ (sextetsOfBytes_bounded s)).
  destruct (atob_sextets s) as [_ Hpadded].
  unfold restorePadding in Hpadded. rewrite stringOfSextets_length in Hpadded.
  exact Hpadded.
Qed.

Lemma replaceAll_length (c d : ascii) (s : string) :
  String.length (replaceAll c d s) = String.length s.
Proof. induction s; cbn [replaceAll String.length]; congruence. Qed.

Lemma removeWhitespace_replaceAll (c d : ascii) (s : string) :
  isAsciiWhitespace c = false -> isAsciiWhitespace d = false ->
  removeWhitespace (replaceAll c d s) = replaceAll c d (removeWhitespace s).
Proof.
  intros Hc Hd. induction s as [|x s IH]; [reflexivity|].
  cbn [replaceAll removeWhitespace].
  destruct (Ascii.eqb_spec x c) as [->|Hne].
  - rewrite Hc, Hd. cbn [replaceAll]. rewrite Ascii.eqb_refl, IH. reflexivity.
  - destruct (isAsciiWhitespace x); [exact IH|].
    cbn [replaceAll]. apply Ascii.eqb_neq in Hne. rewrite Hne, IH. reflexivity.
Qed.

Lemma contains_replaceAll (c a b : ascii) (s : string) :
  c <> a -> contains c s = true -> contains c (replaceAll a b s) = true.
Proof.
  intros Hca. induction s as [|x s IH]; [discriminate|].
  cbn [contains replaceAll]. intros H. apply orb_true_iff in H. destruct H as [Hx|Hs].
  - apply Ascii.eqb_eq in Hx. subst x. apply Ascii.eqb_neq in Hca. rewrite Hca.
    rewrite Ascii.eqb_refl. reflexivity.
  - rewrite (IH Hs). apply orb_true_r.
Qed.

Lemma contains_removeWhitespace (c : ascii) (s : string) :
  isAsciiWhitespace c = false -> contains c s = true ->
  contains c (removeWhitespace s) = true.
Proof.
  intros Hc. induction s as [|x s IH]; [discriminate|].
  cbn [contains removeWhitespace]. intros H. apply orb_true_iff in H.
  destruct H as [Hx|Hs].
  - apply Ascii.eqb_eq in Hx. subst x. rewrite Hc. cbn [contains].
    rewrite Ascii.eqb_refl. reflexivity.
  - destruct (isAsciiWhitespace x); [exact (IH Hs)|].
    cbn [contains]. rewrite (IH Hs). apply orb_true_r.
Qed.

Lemma contains_stripPadding (c : ascii) (s : string) :
  c <> pad -> contains c s = true -> contains c (stripPadding s) = true.
Proof.
  intros Hc. induction s as [|x s IH]; [discriminate|].
  cbn [contains stripPadding]. intros H.
  assert (Hpads : forall r, (String.eqb r "" || String.eqb r "=" || String.eqb r "==") = true ->
                            contains c r = false).
  { intros r Hr. rewrite !orb_true_iff, !String.eqb_eq in Hr.
    assert (Hp : Ascii.eqb pad c = false) by (apply Ascii.eqb_neq; congruence).
    unfold pad in Hp.
    destruct Hr as [[-> | ->] | ->]; cbn [contains]; rewrite ?Hp; reflexivity. }
  destruct (Ascii.eqb x pad && (String.eqb s "" || String.eqb s "=")) eqn:Hfirst.
  - apply andb_true_iff in Hfirst. destruct Hfirst as [Hx Hs].
    apply Ascii.eqb_eq in Hx. subst x.
    rewrite (Hpads s) in H by (rewrite Hs; reflexivity).
    rewrite orb_false_r in H. apply Ascii.eqb_eq in H. congruence.
  - destruct (String.eqb s "==") eqn:Hsecond.
    + rewrite (Hpads s) in H by (rewrite Hsecond; apply orb_true_r).
      rewrite orb_false_r in H. cbn [contains]. rewrite H. reflexivity.
    + cbn [contains]. apply orb_true_iff in H. destruct H as [Hx|Hs].
      * rewrite Hx. reflexivity.
      * rewrite (IH Hs). apply orb_true_r.
Qed.

Lemma sextetsOfString_invalid (c : ascii) (s : string) :
  decodeSextet c = None -> contains c s = true -> sextetsOfString s = None.
Proof.
  intros Hc. induction s as [|x s IH]; [discriminate|].
  cbn [contains sextetsOfString]. intros H. apply orb_true_iff in H.
  destruct H as [Hx|Hs].
  - apply Ascii.eqb_eq in Hx. subst x. rewrite Hc. reflexivity.
  - rewrite (IH Hs). destruct (decodeSextet x); reflexivity.
Qed.

(** X11.  [base64UrlDecode] fails ([atob] throws) on a text whose length,
    white space aside, is one more than a multiple of four, and on a text
    that holds a character which is neither of the standard or URL-safe
    alphabet nor [=] nor white space. *)
Theorem base64UrlDecode_rejects (s : string) :
  (Nat.modulo (String.length (removeWhitespace s)) 4 = 1%nat ->
     Helpers.base64UrlDecode s = None)
  /\ (forall c,
        contains c s = true ->
        isAsciiWhitespace c = false ->
        c <> "="%char ->
        base64Char c = false ->
        Helpers.base64UrlDecode s = None).
Proof.
  unfold Helpers.base64UrlDecode, atob. split.
  - intros Hlen.
    rewrite !removeWhitespace_replaceAll by reflexivity.
    rewrite !replaceAll_length, Hlen. cbn [Nat.eqb].
    rewrite !replaceAll_length, Hlen. reflexivity.
  - intros c Hin Hws Hpad Hchar.
    assert (Hminus : c <> "-"%char) by (intros ->; discriminate Hchar).
    assert (Hunder : c <> "_"%char) by (intros ->; discriminate Hchar).
    assert (Hdec : decodeSextet c = None).
    { unfold base64Char, plainChar in Hchar.
      apply Ascii.eqb_neq in Hminus, Hunder. rewrite Hminus, Hunder in Hchar.
      destruct (decodeSextet c); [discriminate|reflexivity]. }
    pose proof (contains_removeWhitespace c _ Hws
                  (contains_replaceAll c "_" "/" _ Hunder
                     (contains_replaceAll c "-" "+" _ Hminus Hin))) as Hd.
    set (d := removeWhitespace (replaceAll "_" "/" (replaceAll "-" "+" s))) in *.
    assert (Hd' : contains c (if Nat.eqb (String.length d mod 4) 0
                              then stripPadding d else d) = true).
    { destruct (Nat.eqb (String.length d mod 4) 0); [|exact Hd].
      apply contains_stripPadding; assumption. }
    rewrite (sextetsOfString_invalid c _ Hdec Hd').
    destruct (Nat.eqb _ 1); reflexivity.
Qed.

Lemma base64UrlDecode_rejects_witness :
  Helpers.base64UrlDecode "HBkSH" = None
  /\ Helpers.base64UrlDecode "HBkS HYS*" = None.
Proof.
  split.
  - exact (proj1 (base64UrlDecode_rejects "HBkSH") eq_refl).
  - exact (proj2 (base64UrlDecode_rejects "HBkS HYS*") "*"%char eq_refl eq_refl
             ltac:(discriminate) eq_refl).
Defined.

(** X12.  [useParsedThumbhash] returns nothing for an absent thumbhash.
    For a thumbhash in URL-safe or in standard base64 it returns the text
    itself as [id] and the decoded bytes as [data]; whenever it returns a
    value, [id] is the text and [data] its decoding; and it throws exactly
    when [base64UrlDecode] rejects the text. *)
Theorem useParsedThumbhash_parses (bytes text : string) :
  Thumbhash.useParsedThumbhash None = Some None
  /\ Thumbhash.useParsedThumbhash (Some (Helpers.base64UrlEncode bytes))
     = Some (Some {| Thumbhash.id := Helpers.base64UrlEncode bytes;
                     Thumbhash.data := bytes |})
  /\ Thumbhash.useParsedThumbhash (Some (btoa bytes))
     = Some (Some {| Thumbhash.id := btoa bytes; Thumbhash.data := bytes |})
  /\ (forall parsed,
        Thumbhash.useParsedThumbhash (Some text) = Some parsed ->
        exists decoded,
          Helpers.base64UrlDecode text = Some decoded
          /\ parsed = Some {| Thumbhash.id := text; Thumbhash.data := decoded |})
  /\ (Thumbhash.useParsedThumbhash (Some text) = None
      <-> Helpers.base64UrlDecode text = None).
Proof.
  split; [reflexivity|]. split; [|split; [|split]].
  - unfold Thumbhash.useParsedThumbhash.
    destruct (base64Url_roundtrip bytes) as (_ & Hdec & _). rewrite Hdec. reflexivity.
  - unfold Thumbhash.useParsedThumbhash.
    rewrite base64UrlDecode_standard. reflexivity.
  - intros parsed. unfold Thumbhash.useParsedThumbhash.
    destruct (Helpers.base64UrlDecode text) as [decoded|]; [|discriminate].
    intros [= <-]. exists decoded. split; reflexivity.
  - unfold Thumbhash.useParsedThumbhash.
    destruct (Helpers.base64UrlDecode text); split; congruence.
Qed.

Lemma useParsedThumbhash_parses_witness :
  exists decoded,
    Helpers.base64UrlDecode "aHR0cHM6Ly9teWFwcC5jb20vaW1hZ2UuanBn" = Some decoded
    /\ Some (Some {| Thumbhash.id := "aHR0cHM6Ly9teWFwcC5jb20vaW1hZ2UuanBn";
                     Thumbhash.data := "https://myapp.com/image.jpg" |})
       = Some (Some {| Thumbhash.id := "aHR0cHM6Ly9teWFwcC5jb20vaW1hZ2UuanBn";
                       Thumbhash.data := decoded |}).
Proof.
  destruct (useParsedThumbhash_parses "" "aHR0cHM6Ly9teWFwcC5jb20vaW1hZ2UuanBn")
    as (_ & _ & _ & Hsome & _).
  destruct (Hsome _ eq_refl) as (decoded & Hdec & Hparsed).
  exists decoded. split; [exact Hdec|]. f_equal. exact Hparsed.
Defined.

End HelpersCoverage.

(** ** Further properties of the thumbhash placeholder *)

Module ThumbhashCoverage.
Import Cache Thumbhash Vocabulary WidgetExamples.

Section Scheduling.

Context {C : Type} `{Cache C}.
Variable thumbHashToDataURL : string -> string.
Variable idleCallbackDeclared : bool.
Variable props : ThumbhashImgProps.

#[local] Abbreviation step := (Thumbhash.step thumbHashToDataURL idleCallbackDeclared props).
#[local] Abbreviation run := (Thumbhash.run thumbHashToDataURL idleCallbackDeclared props).
#[local] Abbreviation decode := (Thumbhash.decode thumbHashToDataURL props).


Lemma run_cons (st : State) (ev : Event) (evs : list Event) :
  run st (ev :: evs) = run (step st ev) evs.
Proof. reflexivity. Qed.

Lemma run_app (st : State) (evs evs' : list Event) :
  run st (evs ++ evs') = run (run st evs) evs'.
Proof. apply fold_left_app. Qed.



Lemma step_declined (st : State) (ev : Event) :
  declines ev = true ->
  src (step st ev) = src st /\ cache (step st ev) = cache st.
Proof.
  destruct ev as [elm|shouldRender inViewport|entries shouldRender|shouldRender|];
    cbn [declines Thumbhash.step]; intros Hd.
  - destruct (negb elm), (Helpers.isNotNil (src st)), (decodingRequested st); auto.
  - apply negb_true_iff in Hd. subst. destruct (frameRequested st); cbn; auto.
  - apply negb_true_iff in Hd. subst. destruct (observing st); cbn [negb]; auto.
    destruct entries as [|[|] entries]; cbn [negb]; auto.
    destruct (isLow (priority props)); [destruct idleCallbackDeclared|]; cbn; auto.
  - apply negb_true_iff in Hd. subst. destruct (decodeDeferred st); cbn; auto.
  - cbn. auto.
Qed.

(** X14.  As long as [shouldRender] is false whenever a callback asks,
    the placeholder is never decoded: whatever the sequence of ref
    callbacks, animation frames, intersection reports and idle callbacks,
    [src] and the shared cache stay as they were. *)
Theorem no_decode_while_declined (st : State) (evs : list Event)
    (Hdeclined : forallb declines evs = true) :
  src (run st evs) = src st /\ cache (run st evs) = cache st.
Proof.
  revert st. induction evs as [|ev evs IH]; intros st; [auto|].
  cbn [forallb] in Hdeclined. apply andb_true_iff in Hdeclined.
  destruct Hdeclined as [Hev Hevs]. rewrite run_cons.
  destruct (step_declined st ev Hev) as [Hs Hc].
  destruct (IH Hevs (step st ev)) as [Hs' Hc']. split; congruence.
Qed.

Lemma step_quiescent (st : State) (ev : Event) :
  quiescent st = true ->
  quiescent (step st ev) = true
  /\ src (step st ev) = src st /\ cache (step st ev) = cache st.
Proof.
  unfold quiescent. rewrite !andb_true_iff, !negb_true_iff.
  intros [[[Hreq Hframe] Hobs] Hdef].
  destruct ev as [elm|shouldRender inViewport|entries shouldRender|shouldRender|];
    cbn [Thumbhash.step]; rewrite ?Hreq, ?Hframe, ?Hobs, ?Hdef; cbn [negb].
  - destruct (negb elm), (Helpers.isNotNil (src st));
      rewrite ?Hreq, ?Hframe, ?Hobs, ?Hdef; auto.
  - rewrite Hreq, Hframe, Hobs, Hdef. auto.
  - rewrite Hreq, Hframe, Hobs, Hdef. auto.
  - rewrite Hreq, Hframe, Hobs, Hdef. auto.
  - cbn. rewrite Hreq, Hframe, Hdef. auto.
Qed.

(** X15.  A trigger that is skipped is never retried.  When the animation
    frame finds [shouldRender] false, nothing is queued or observed
    afterwards, and from such a state no sequence of callbacks changes
    [src] or the cache, even if [shouldRender] holds again. *)
Theorem skipped_trigger_not_retried (st : State) :
  (quiescent st = true ->
     forall evs, src (run st evs) = src st /\ cache (run st evs) = cache st)
  /\ (src st = None -> decodingRequested st = false ->
      observing st = false -> decodeDeferred st = false ->
      forall inViewport evs,
        quiescent (run st [Ref true; AnimationFrame false inViewport]) = true
        /\ src (run st ([Ref true; AnimationFrame false inViewport] ++ evs)) = None).
Proof.
  assert (Hq : forall evs st', quiescent st' = true ->
             src (run st' evs) = src st' /\ cache (run st' evs) = cache st').
  { induction evs as [|ev evs IH]; intros st' Hst'; [auto|].
    rewrite run_cons. destruct (step_quiescent st' ev Hst') as (Hq' & Hs & Hc).
    destruct (IH _ Hq') as [Hs' Hc']. split; congruence. }
  split; [intros Hst evs; apply Hq, Hst|].
  intros Hsrc Hreq Hobs Hdef inViewport evs.
  assert (Hskip : quiescent (run st [Ref true; AnimationFrame false inViewport]) = true
                  /\ src (run st [Ref true; AnimationFrame false inViewport]) = None).
  { cbn [Thumbhash.run fold_left Thumbhash.step negb]. rewrite Hsrc, Hreq. cbn.
    split; [|exact Hsrc]. unfold quiescent. cbn. rewrite Hobs, Hdef. reflexivity. }
  destruct Hskip as [Hquiet Hnone]. split; [exact Hquiet|].
  rewrite run_app. destruct (Hq evs _ Hquiet) as [Hs _]. congruence.
Qed.

(** With [priority = low] and no idle callback queued, a run of
    callbacks queues none, and shows no placeholder, unless the global
    [requestIdleCallback] is declared. *)
Lemma step_low_undeclared (st : State) (ev : Event) :
  priority props = low -> idleCallbackDeclared = false ->
  decodeDeferred st = false ->
  decodeDeferred (step st ev) = false
  /\ src (step st ev) = src st /\ cache (step st ev) = cache st.
Proof.
  intros Hlow Hundeclared Hdef.
  destruct ev as [elm|shouldRender inViewport|entries shouldRender|shouldRender|];
    cbn [Thumbhash.step]; rewrite ?Hlow, ?Hundeclared, ?Hdef; cbn [isLow negb andb].
  - destruct (negb elm), (Helpers.isNotNil (src st)), (decodingRequested st); auto.
  - destruct (frameRequested st), shouldRender; cbn; auto.
  - destruct (observing st); cbn [negb]; auto.
    destruct entries as [|[|] entries]; cbn; auto.
  - auto.
  - cbn. auto.
Qed.

(** X16.  With [priority = low] the placeholder is decoded in the queued
    callback only: no ref callback, animation frame or intersection
    report changes [src] or the cache, not even for an element that is in
    the viewport already.  Where the global [requestIdleCallback] is
    declared, the decode runs once an intersection was reported and the
    queued callback finds [shouldRender] true.  Where it is not declared,
    the observer callback throws at [requestIdleCallback ||
    requestAnimationFrame]: a reported intersection changes nothing, the
    observer stays connected, and no sequence of callbacks ever changes
    [src] or the cache. *)
Theorem low_priority_deferred (Hlow : priority props = low) (st : State) :
  (forall ev, isIdle ev = false ->
     src (step st ev) = src st /\ cache (step st ev) = cache st)
  /\ (idleCallbackDeclared = true ->
      src st = None -> decodingRequested st = false ->
      forall inViewport entries shouldRender,
        src (run st [Ref true; AnimationFrame true inViewport;
                     Intersection (true :: entries) shouldRender]) = None
        /\ src (run st [Ref true; AnimationFrame true inViewport;
                        Intersection (true :: entries) shouldRender; Idle true]) <> None)
  /\ (idleCallbackDeclared = false ->
      (forall entries shouldRender, step st (Intersection entries shouldRender) = st)
      /\ (decodeDeferred st = false ->
          forall evs, src (run st evs) = src st /\ cache (run st evs) = cache st)
      /\ (src st = None -> decodingRequested st = false ->
          forall inViewport entries shouldRender,
            let waiting := run st [Ref true; AnimationFrame true inViewport] in
            observing waiting = true
            /\ observing
                 (step waiting (Intersection (true :: entries) shouldRender)) = true)).
Proof.
  split; [|split].
  - intros ev Hev.
    destruct ev as [elm|shouldRender inViewport|entries shouldRender|shouldRender|];
      try discriminate Hev; cbn [Thumbhash.step]; rewrite ?Hlow; cbn [isLow negb andb].
    + destruct (negb elm), (Helpers.isNotNil (src st)), (decodingRequested st); auto.
    + destruct (frameRequested st), shouldRender; cbn; auto.
    + destruct (observing st); cbn [negb]; auto.
      destruct entries as [|[|] entries]; cbn; auto.
      destruct idleCallbackDeclared; cbn; auto.
    + cbn. auto.
  - intros Hdeclared Hsrc Hreq inViewport entries shouldRender.
    cbn [Thumbhash.run fold_left Thumbhash.step negb]. rewrite Hsrc, Hreq, Hlow, Hdeclared.
    cbn [Helpers.isNotNil requested frameDone setObserving setDeferred isLow negb andb
         frameRequested observing decodeDeferred src].
    split; [exact Hsrc|].
    match goal with
    | |- src (Thumbhash.decode _ _ ?s) <> None =>
        unfold Thumbhash.decode;
        destruct (get (cache s) (id (thumbhash props))) as [[cached|] c'];
        cbn [src]; discriminate
    end.
  - intros Hundeclared. split; [|split].
    + intros entries shouldRender. cbn [Thumbhash.step]. rewrite Hlow, Hundeclared.
      cbn [isLow]. destruct (negb (observing st)); [reflexivity|].
      destruct entries as [|[|] entries]; reflexivity.
    + intros Hdef evs. revert st Hdef.
      induction evs as [|ev evs IH]; intros st' Hdef; [auto|].
      rewrite run_cons.
      destruct (step_low_undeclared st' ev Hlow Hundeclared Hdef) as (Hdef' & Hs & Hc).
      destruct (IH _ Hdef') as [Hs' Hc']. split; congruence.
    + intros Hsrc Hreq inViewport entries shouldRender.
      cbn [Thumbhash.run fold_left Thumbhash.step negb]. rewrite Hsrc, Hreq, Hlow, Hundeclared.
      cbn. split; reflexivity.
Qed.

Lemma step_settled (st : State) (ev : Event) :
  settled st = true ->
  settled (step st ev) = true
  /\ src (step st ev) = src st /\ cache (step st ev) = cache st.
Proof.
  unfold settled. rewrite !andb_true_iff, !negb_true_iff.
  intros [[[Hsrc Hframe] Hobs] Hdef].
  destruct ev as [elm|shouldRender inViewport|entries shouldRender|shouldRender|];
    cbn [Thumbhash.step]; rewrite ?Hsrc, ?Hframe, ?Hobs, ?Hdef; cbn [negb].
  - destruct (negb elm); rewrite Hsrc, Hframe, Hobs, Hdef; auto.
  - rewrite Hsrc, Hframe, Hobs, Hdef. auto.
  - rewrite Hsrc, Hframe, Hobs, Hdef. auto.
  - rewrite Hsrc, Hframe, Hobs, Hdef. auto.
  - cbn. rewrite Hsrc, Hframe, Hdef. auto.
Qed.

(** X17.  A placeholder decoded by one widget is shared through the
    cache.  When [decode] misses the cache it shows the decoded image and
    stores it under the id of the thumbhash; if the cache still returns it,
    a widget mounted afterwards shows it from its first render, never
    requests a decoding, and no callback changes its [src] or the cache. *)
Theorem decoded_placeholder_shared (st : State)
    (Hmiss : fst (get (cache st) (id (thumbhash props))) = None)
    (Hkept : fst (get (set (snd (get (cache st) (id (thumbhash props))))
                         (id (thumbhash props))
                         (thumbHashToDataURL (data (thumbhash props))))
                    (id (thumbhash props)))
             = Some (thumbHashToDataURL (data (thumbhash props)))) :
  src (decode st) = Some (thumbHashToDataURL (data (thumbhash props)))
  /\ src (mount props (cache (decode st)))
     = Some (thumbHashToDataURL (data (thumbhash props)))
  /\ (forall evs,
        src (run (mount props (cache (decode st))) evs)
        = Some (thumbHashToDataURL (data (thumbhash props)))
        /\ decodingRequested (run (mount props (cache (decode st))) evs) = false
        /\ cache (run (mount props (cache (decode st))) evs)
           = cache (mount props (cache (decode st)))).
Proof.
  assert (Hdecode : src (decode st) = Some (thumbHashToDataURL (data (thumbhash props)))
                    /\ cache (decode st)
                       = set (snd (get (cache st) (id (thumbhash props))))
                           (id (thumbhash props))
                           (thumbHashToDataURL (data (thumbhash props)))).
  { unfold Thumbhash.decode.
    destruct (get (cache st) (id (thumbhash props))) as [cached c'].
    cbn [fst snd] in *. subst cached. split; reflexivity. }
  destruct Hdecode as [Hsrc Hcache]. split; [exact Hsrc|].
  assert (Hmount : src (mount props (cache (decode st)))
                   = Some (thumbHashToDataURL (data (thumbhash props)))
                   /\ settled (mount props (cache (decode st))) = true
                   /\ decodingRequested (mount props (cache (decode st))) = false).
  { unfold mount. rewrite Hcache.
    destruct (get (set _ _ _) (id (thumbhash props))) as [cached c'].
    cbn [fst] in Hkept. subst cached. repeat split. }
  destruct Hmount as (Hmsrc & Hsettled & Hmreq). split; [exact Hmsrc|].
  intros evs. generalize dependent (mount props (cache (decode st))).
  induction evs as [|ev evs IH]; intros st2 Hs2 Hsettled Hreq2; [auto|].
  rewrite run_cons. destruct (step_settled st2 ev Hsettled) as (Hset' & Hsrc' & Hcache').
  assert (Hreq' : decodingRequested (step st2 ev) = false).
  { unfold settled in Hsettled. rewrite !andb_true_iff, !negb_true_iff in Hsettled.
    destruct Hsettled as [[[Hnn Hframe] Hobs] Hdef].
    destruct ev as [elm|shouldRender inViewport|entries shouldRender|shouldRender|];
      cbn [Thumbhash.step]; rewrite ?Hnn, ?Hframe, ?Hobs, ?Hdef; cbn [negb].
    - destruct (negb elm); exact Hreq2.
    - exact Hreq2.
    - exact Hreq2.
    - exact Hreq2.
    - exact Hreq2. }
  destruct (IH (step st2 ev)) as (Hr1 & Hr2 & Hr3); [congruence|exact Hset'|exact Hreq'|].
  split; [exact Hr1|]. split; [exact Hr2|]. congruence.
Qed.

End Scheduling.


Lemma no_decode_while_declined_witness :
  let props := {| thumbhash := exampleThumbhash; priority := auto |} in
  src (Thumbhash.run exampleDataURL true props (freshMount auto)
         [Ref true; AnimationFrame false true; Intersection [true] false; Idle false])
  = None.
Proof.
  exact (proj1 (no_decode_while_declined exampleDataURL true
                  {| thumbhash := exampleThumbhash; priority := auto |}
                  (freshMount auto)
                  [Ref true; AnimationFrame false true; Intersection [true] false; Idle false]
                  eq_refl)).
Defined.

Lemma skipped_trigger_not_retried_witness :
  let props := {| thumbhash := exampleThumbhash; priority := auto |} in
  src (Thumbhash.run exampleDataURL true props (freshMount auto)
         ([Ref true; AnimationFrame false true]
          ++ [Ref true; AnimationFrame true true; Intersection [true] true; Idle true]))
  = None.
Proof.
  exact (proj2 (proj2 (skipped_trigger_not_retried exampleDataURL true
                         {| thumbhash := exampleThumbhash; priority := auto |}
                         (freshMount auto))
                  eq_refl eq_refl eq_refl eq_refl true
                  [Ref true; AnimationFrame true true; Intersection [true] true; Idle true])).
Defined.

Lemma low_priority_deferred_witness :
  let props := {| thumbhash := exampleThumbhash; priority := low |} in
  src (Thumbhash.run exampleDataURL true props (freshMount low)
         [Ref true; AnimationFrame true true; Intersection [true] true]) = None
  /\ src (Thumbhash.run exampleDataURL true props (freshMount low)
            [Ref true; AnimationFrame true true; Intersection [true] true; Idle true])
     <> None
  /\ src (Thumbhash.run exampleDataURL false props (freshMount low)
            [Ref true; AnimationFrame true true; Intersection [true] true; Idle true;
             Intersection [true] true; AnimationFrame true true; Idle true])
     = None.
Proof.
  cbn zeta.
  destruct (proj1 (proj2 (low_priority_deferred exampleDataURL true
                            {| thumbhash := exampleThumbhash; priority := low |} eq_refl
                            (freshMount low)))
              eq_refl eq_refl eq_refl true [] true) as [Hwaiting Hdecoded].
  destruct (proj2 (proj2 (low_priority_deferred exampleDataURL false
                            {| thumbhash := exampleThumbhash; priority := low |} eq_refl
                            (freshMount low)))
              eq_refl) as (_ & Hnever & _).
  split; [exact Hwaiting|]. split; [exact Hdecoded|].
  exact (proj1 (Hnever eq_refl _)).
Defined.

Lemma decoded_placeholder_shared_witness :
  let props := {| thumbhash := exampleThumbhash; priority := high |} in
  let first := Thumbhash.decode exampleDataURL props (freshMount high) in
  src first = Some "data:image/png;base64,thumbhash bytes"
  /\ src (mount props (cache first)) = Some "data:image/png;base64,thumbhash bytes".
Proof.
  cbn zeta.
  destruct (@decoded_placeholder_shared Store Store_Cache exampleDataURL true
              {| thumbhash := exampleThumbhash; priority := high |}
              (freshMount high) eq_refl eq_refl) as (Hfirst & Hsecond & _).
  split; [exact Hfirst|exact Hsecond].
Defined.

End ThumbhashCoverage.

(** ** Further properties of the image widget *)

Module ImgCoverage.
Import Thumbhash Img Vocabulary WidgetExamples.

Lemma run_loadingFailed (sigs : list Signal) :
  forall st st',
    run st sigs = Some st' ->
    loadingFailed st' = loadingFailed st || existsb isErrorEvent sigs.
Proof.
  induction sigs as [|sig sigs IH]; intros st st' Hrun.
  - injection Hrun as <-. rewrite orb_false_r. reflexivity.
  - cbn [run] in Hrun. destruct (enabled st sig); [|discriminate].
    rewrite (IH _ _ Hrun). cbn [existsb].
    destruct sig; cbn [step loadingFailed isErrorEvent orb];
      rewrite ?orb_true_r; reflexivity.
Qed.

(** X18.  An image that is complete when the thumbhash asks, and whose
    loading never failed, suppresses the thumbhash: after any signals
    without a load failure [shouldRenderThumbhash] is false for a complete
    image, and the animation frame of a [ThumbhashImg] that is given this
    answer decodes nothing and leaves nothing queued or observed.  Before
    the image element exists, and while it is incomplete, the answer is
    true. *)
Theorem complete_image_suppresses_thumbhash {C : Type} `{Cache.Cache C}
    (thumbHashToDataURL : string -> string) (idleCallbackDeclared : bool)
    (props : ThumbhashImgProps)
    (sigs : list Signal) (st : Img.State) (placeholder : Thumbhash.State)
    (Hrun : run initial sigs = Some st)
    (Hloaded : existsb isErrorEvent sigs = false)
    (Hsrc : Thumbhash.src placeholder = None)
    (Hfresh : decodingRequested placeholder = false)
    (Hobserving : observing placeholder = false)
    (Hdeferred : decodeDeferred placeholder = false) :
  shouldRenderThumbhash (Some true) st = false
  /\ shouldRenderThumbhash None st = true
  /\ shouldRenderThumbhash (Some false) st = true
  /\ forall inViewport,
       let after := Thumbhash.run thumbHashToDataURL idleCallbackDeclared props placeholder
                      [Ref true;
                       AnimationFrame (shouldRenderThumbhash (Some true) st) inViewport] in
       Thumbhash.src after = None
       /\ Thumbhash.cache after = Thumbhash.cache placeholder
       /\ quiescent after = true.
Proof.
  pose proof (run_loadingFailed sigs initial st Hrun) as Hfailed.
  rewrite Hloaded in Hfailed. cbn in Hfailed.
  assert (Hanswer : shouldRenderThumbhash (Some true) st = false)
    by (cbn; exact Hfailed).
  split; [exact Hanswer|]. split; [reflexivity|]. split; [reflexivity|].
  intros inViewport. cbn zeta. rewrite Hanswer.
  cbn [Thumbhash.run fold_left Thumbhash.step negb]. rewrite Hsrc, Hfresh. cbn.
  split; [exact Hsrc|]. split; [reflexivity|].
  unfold quiescent. cbn. rewrite Hobserving, Hdeferred. reflexivity.
Qed.

Lemma complete_image_suppresses_thumbhash_witness :
  shouldRenderThumbhash (Some true)
    {| loadingState := loaded; loadingFailed := false; decoding := 0 |} = false
  /\ Thumbhash.src
       (Thumbhash.run exampleDataURL true {| thumbhash := exampleThumbhash; priority := auto |}
          (freshMount auto)
          [Ref true;
           AnimationFrame
             (shouldRenderThumbhash (Some true)
                {| loadingState := loaded; loadingFailed := false; decoding := 0 |})
             true]) = None.
Proof.
  destruct (@complete_image_suppresses_thumbhash Store Store_Cache exampleDataURL true
              {| thumbhash := exampleThumbhash; priority := auto |}
              [LoadEvent; DecodeComplete]
              {| loadingState := loaded; loadingFailed := false; decoding := 0 |}
              (freshMount auto) eq_refl eq_refl eq_refl eq_refl eq_refl eq_refl)
    as (Hanswer & _ & _ & Hframe).
  split; [exact Hanswer|]. exact (proj1 (Hframe true)).
Defined.

(** X19.  A load failure is remembered for the rest of the mount: after
    any enabled signals [loadingFailed] is set exactly when one of them
    was a load failure or it was set before, it is never cleared, and from
    then on [shouldRenderThumbhash] is true also for a complete image,
    whatever signals follow. *)
Theorem load_failure_remembered (st st' : Img.State) (sigs : list Signal)
    (Hrun : run st sigs = Some st') :
  loadingFailed st' = loadingFailed st || existsb isErrorEvent sigs
  /\ (loadingFailed st = true -> loadingFailed st' = true)
  /\ (loadingFailed st || existsb isErrorEvent sigs = true ->
      forall imgRef, shouldRenderThumbhash imgRef st' = true).
Proof.
  pose proof (run_loadingFailed sigs st st' Hrun) as Hfailed.
  split; [exact Hfailed|]. split.
  - intros Hst. rewrite Hfailed, Hst. reflexivity.
  - intros Hsome [complete|]; cbn; [|reflexivity].
    rewrite Hfailed, Hsome. apply orb_true_r.
Qed.

Lemma load_failure_remembered_witness :
  run initial [LoadEvent; DecodeRejected; ErrorEvent]
    = Some {| loadingState := error; loadingFailed := true; decoding := 0 |}
  /\ shouldRenderThumbhash (Some true)
       {| loadingState := error; loadingFailed := true; decoding := 0 |} = true.
Proof.
  split; [reflexivity|].
  exact (proj2 (proj2 (load_failure_remembered initial
                         {| loadingState := error; loadingFailed := true; decoding := 0 |}
                         [LoadEvent; DecodeRejected; ErrorEvent] eq_refl))
           eq_refl (Some true)).
Defined.

End ImgCoverage.

(** ** Further properties of the percentage dimensions *)

Module ImgPercentageCoverage.
Import Js Thumbhash ImgPercentage ImgPercentageFacts Vocabulary WidgetExamples.

Section Observer.

Variable thumbHashToApproximateAspectRatio : string -> float.

#[local] Abbreviation dimensions := (ImgPercentage.dimensions thumbHashToApproximateAspectRatio).
#[local] Abbreviation onResize := (ImgPercentage.onResize thumbHashToApproximateAspectRatio).

Lemma observeEntry_numeric_width (pw ph : option Dimension) (ws pending : Sizes)
    (w h : Value) (entry : Q * Q) :
  isPercentage pw = false ->
  width pending = width ws ->
  width (observeEntry pw ph ws w h pending entry) = width ws.
Proof.
  intros Hpw Hpending. destruct entry as [newWidth newHeight].
  unfold observeEntry. rewrite Hpw. destruct (isPercentage ph); cbn [andb negb];
    repeat match goal with
           | |- context [if ?c then _ else _] => destruct c
           end; cbn [width]; auto.
Qed.

Lemma observeEntry_numeric_height (pw ph : option Dimension) (ws pending : Sizes)
    (w h : Value) (entry : Q * Q) :
  isPercentage ph = false ->
  height pending = height ws ->
  height (observeEntry pw ph ws w h pending entry) = height ws.
Proof.
  intros Hph Hpending. destruct entry as [newWidth newHeight].
  unfold observeEntry. rewrite Hph. destruct (isPercentage pw); cbn [andb negb];
    repeat match goal with
           | |- context [if ?c then _ else _] => destruct c
           end; cbn [height]; auto.
Qed.

(** X20.  Only percentage dimensions are ever measured: for a dimension
    that is not a percentage (a number, or absent), the committed wrapper
    size is changed neither by the measure at mount nor by any report of
    the resize observer. *)
Theorem numeric_dimension_never_measured (imgRef : bool) (pw ph : option Dimension)
    (thumbhash : option ParsedThumbhash) (ws : Sizes) (wrapper : option (Q * Q))
    (entries : list (Q * Q)) :
  (isPercentage pw = false ->
     width (measure pw ph ws wrapper) = width ws
     /\ width (onResize imgRef pw ph thumbhash ws entries) = width ws)
  /\ (isPercentage ph = false ->
      height (measure pw ph ws wrapper) = height ws
      /\ height (onResize imgRef pw ph thumbhash ws entries) = height ws).
Proof.
  split.
  - intros Hpw. split.
    + unfold measure. destruct wrapper as [[cw ch]|]; [|reflexivity].
      rewrite Hpw. cbn. destruct (isPercentage ph); reflexivity.
    + unfold ImgPercentage.onResize.
      destruct (dimensions pw ph thumbhash ws) as [[w|] [h|]]; try reflexivity.
      destruct (imgRef && _); [|reflexivity].
      assert (Hfold : forall pending, width pending = width ws ->
                width (fold_left (observeEntry pw ph ws w h) entries pending) = width ws).
      { induction entries as [|entry entries IH]; intros pending Hp; [exact Hp|].
        apply IH, observeEntry_numeric_width; assumption. }
      apply Hfold. reflexivity.
  - intros Hph. split.
    + unfold measure. destruct wrapper as [[cw ch]|]; [|reflexivity].
      rewrite Hph. cbn. rewrite !andb_false_r. destruct (isPercentage pw); reflexivity.
    + unfold ImgPercentage.onResize.
      destruct (dimensions pw ph thumbhash ws) as [[w|] [h|]]; try reflexivity.
      destruct (imgRef && _); [|reflexivity].
      assert (Hfold : forall pending, height pending = height ws ->
                height (fold_left (observeEntry pw ph ws w h) entries pending) = height ws).
      { induction entries as [|entry entries IH]; intros pending Hp; [exact Hp|].
        apply IH, observeEntry_numeric_height; assumption. }
      apply Hfold. reflexivity.
Qed.


(** X22.  With two percentage dimensions the observer compares the
    reported width only: both reported sizes are committed when the width
    lies outside the band of the resolved width, and nothing is committed
    otherwise, whatever the reported height. *)
Theorem both_percentages_band (pw ph : option Dimension)
    (thumbhash : option ParsedThumbhash) (ws : Sizes) (w h newWidth newHeight : Q)
    (Hresolved : dimensions pw ph thumbhash ws = (Some (Finite w), Some (Finite h)))
    (Hpw : isPercentage pw = true) (Hph : isPercentage ph = true) :
  onResize true pw ph thumbhash ws [(newWidth, newHeight)]
  = if inBand newWidth w then ws
    else {| width := Some newWidth; height := Some newHeight |}.
Proof.
  unfold ImgPercentage.onResize. rewrite Hresolved, Hpw, Hph.
  cbn [andb orb negb fold_left observeEntry]. rewrite Hpw, Hph. cbn [andb negb].
  rewrite outside_band. destruct (inBand newWidth w); reflexivity.
Qed.

Lemma inBand_itself (x : Q) : 0 <= x -> inBand x x = true.
Proof.
  intros Hx. unfold inBand. rewrite andb_true_iff, !Qle_bool_iff. split; lra.
Qed.

(** X23.  A report that repeats the resolved sizes commits nothing, for
    every combination of percentage and numeric dimensions, so that
    committing a measure cannot trigger itself again; the band includes
    its two ends, 0.75 and 1.5 times the resolved size. *)
Theorem repeated_size_not_committed (imgRef : bool) (pw ph : option Dimension)
    (thumbhash : option ParsedThumbhash) (ws : Sizes) (w h : Q)
    (Hresolved : dimensions pw ph thumbhash ws = (Some (Finite w), Some (Finite h)))
    (Hw : 0 <= w) (Hh : 0 <= h) :
  onResize imgRef pw ph thumbhash ws [(w, h)] = ws
  /\ inBand ((3 # 4) * w) w = true
  /\ inBand ((3 # 2) * w) w = true.
Proof.
  split; [|split].
  - unfold ImgPercentage.onResize. rewrite Hresolved.
    destruct (imgRef && _); [|reflexivity].
    cbn [fold_left observeEntry]. rewrite !outside_band.
    rewrite (inBand_itself w Hw), (inBand_itself h Hh). cbn [negb].
    rewrite !andb_false_r. reflexivity.
  - unfold inBand. rewrite andb_true_iff, !Qle_bool_iff. split; lra.
  - unfold inBand. rewrite andb_true_iff, !Qle_bool_iff. split; lra.
Qed.

(** X24.  How the revision with percentages resolves the dimensions: a
    numeric prop resolves to itself whatever was measured; a percentage
    resolves to the measured wrapper size, and with a thumbhash the
    absent height is [Math.round] of the quotient of the measured width
    by the aspect ratio, computed on the binary64 numbers, so that it is
    an infinity for a ratio of zero; before the wrapper is measured two
    percentages resolve to nothing, with or without a thumbhash. *)
Theorem percentage_dimensions_resolved (thumbhash : option ParsedThumbhash) (ws : Sizes) :
  (forall n ph, fst (dimensions (Some (Number n)) ph thumbhash ws) = Some (Finite n))
  /\ (forall n pw, snd (dimensions pw (Some (Number n)) thumbhash ws) = Some (Finite n))
  /\ (forall text ph w,
        width ws = Some w ->
        fst (dimensions (Some (Percentage text)) ph thumbhash ws) = Some (Finite w))
  /\ (forall text t w,
        thumbhash = Some t -> ws = {| width := Some w; height := None |} ->
        dimensions (Some (Percentage text)) None thumbhash ws
        = (Some (Finite w),
           Some (valueOf (Math_round
                            (ofRational w / thumbHashToApproximateAspectRatio (data t))%float)))
        /\ (thumbHashToApproximateAspectRatio (data t) = 2%float ->
            dimensions (Some (Percentage text)) None thumbhash
              {| width := Some 320; height := None |}
            = (Some (Finite 320), Some (Finite 160)))
        /\ (thumbHashToApproximateAspectRatio (data t) = 0.4%float ->
            dimensions (Some (Percentage text)) None thumbhash
              {| width := Some 201; height := None |}
            = (Some (Finite 201), Some (Finite 503)))
        /\ (thumbHashToApproximateAspectRatio (data t) = 0%float ->
            dimensions (Some (Percentage text)) None thumbhash
              {| width := Some 320; height := None |}
            = (Some (Finite 320), Some PlusInfinity)))
  /\ (forall textW textH,
        dimensions (Some (Percentage textW)) (Some (Percentage textH)) thumbhash
          {| width := None; height := None |} = (None, None)).
Proof.
  split; [|split; [|split; [|split]]].
  - intros n ph. unfold ImgPercentage.dimensions. cbn [numeric isPercentage negb].
    destruct (numeric ph (height ws)), thumbhash; reflexivity.
  - intros n pw. unfold ImgPercentage.dimensions. cbn [numeric isPercentage negb].
    destruct (numeric pw (width ws)), thumbhash; reflexivity.
  - intros text ph w Hws. unfold ImgPercentage.dimensions. cbn [numeric isPercentage negb].
    rewrite Hws. destruct (numeric ph (height ws)), thumbhash; reflexivity.
  - intros text t w -> ->. split; [reflexivity|].
    unfold ImgPercentage.dimensions. cbn [numeric isPercentage negb width height].
    split; [|split]; intros ->; reflexivity.
  - intros textW textH. destruct thumbhash; reflexivity.
Qed.

(** X25.  With a percentage width, no height and no thumbhash the height
    is never resolved, so the resize observer is never installed: the
    mount measures the width, and afterwards no report of any size
    changes the committed sizes. *)
Theorem percentage_width_alone_not_observed (text : string) (ws : Sizes)
    (Hheight : height ws = None) :
  (forall clientWidth clientHeight,
     measure (Some (Percentage text)) None ws (Some (clientWidth, clientHeight))
     = {| width := Some clientWidth; height := None |})
  /\ (forall imgRef entries,
        onResize imgRef (Some (Percentage text)) None None ws entries = ws)
  /\ (forall imgRef clientWidth clientHeight entries,
        onResize imgRef (Some (Percentage text)) None None
          (measure (Some (Percentage text)) None ws (Some (clientWidth, clientHeight)))
          entries
        = {| width := Some clientWidth; height := None |}).
Proof.
  split; [|split].
  - intros cw ch. cbn. rewrite Hheight. reflexivity.
  - intros imgRef entries. unfold ImgPercentage.onResize, ImgPercentage.dimensions.
    cbn [numeric isPercentage]. rewrite Hheight.
    destruct (width ws); reflexivity.
  - intros imgRef cw ch entries. cbn [measure isPercentage andb negb].
    rewrite Hheight. reflexivity.
Qed.

End Observer.

Lemma numeric_dimension_never_measured_witness :
  height (measure (Some (Percentage "100%")) (Some (Number 50))
            {| width := None; height := None |} (Some (320, 240))) = None
  /\ height (onResize squareRatio true (Some (Percentage "100%")) (Some (Number 50)) None
               {| width := Some 320; height := None |} [(640, 480)]) = None.
Proof.
  split.
  - exact (proj1 (proj2 (numeric_dimension_never_measured squareRatio true
                           (Some (Percentage "100%")) (Some (Number 50)) None
                           {| width := None; height := None |} (Some (320, 240)) [])
                    eq_refl)).
  - exact (proj2 (proj2 (numeric_dimension_never_measured squareRatio true
                           (Some (Percentage "100%")) (Some (Number 50)) None
                           {| width := Some 320; height := None |} None [(640, 480)])
                    eq_refl)).
Defined.


Lemma both_percentages_band_witness :
  onResize squareRatio true (Some (Percentage "100%")) (Some (Percentage "100%")) None
    {| width := Some 320; height := Some 240 |} [(100, 240)]
  = {| width := Some 100; height := Some 240 |}
  /\ onResize squareRatio true (Some (Percentage "100%")) (Some (Percentage "100%")) None
       {| width := Some 320; height := Some 240 |} [(320, 900)]
     = {| width := Some 320; height := Some 240 |}.
Proof.
  split.
  - exact (both_percentages_band squareRatio (Some (Percentage "100%"))
             (Some (Percentage "100%")) None {| width := Some 320; height := Some 240 |}
             320 240 100 240 eq_refl eq_refl eq_refl).
  - exact (both_percentages_band squareRatio (Some (Percentage "100%"))
             (Some (Percentage "100%")) None {| width := Some 320; height := Some 240 |}
             320 240 320 900 eq_refl eq_refl eq_refl).
Defined.

Lemma repeated_size_not_committed_witness :
  onResize squareRatio true (Some (Percentage "100%")) (Some (Percentage "100%")) None
    {| width := Some 320; height := Some 240 |} [(320, 240)]
  = {| width := Some 320; height := Some 240 |}.
Proof.
  exact (proj1 (repeated_size_not_committed squareRatio true (Some (Percentage "100%"))
                  (Some (Percentage "100%")) None {| width := Some 320; height := Some 240 |}
                  320 240 eq_refl ltac:(discriminate) ltac:(discriminate))).
Defined.

Lemma percentage_dimensions_resolved_witness :
  dimensions squareRatio (Some (Percentage "100%")) None (Some exampleThumbhash)
    {| width := Some 320; height := None |} = (Some (Finite 320), Some (Finite 160)).
Proof.
  destruct (proj1 (proj2 (proj2 (proj2
              (percentage_dimensions_resolved squareRatio (Some exampleThumbhash)
                 {| width := Some 320; height := None |}))))
              "100%" exampleThumbhash 320 eq_refl eq_refl) as (_ & Hsquare & _).
  exact (Hsquare eq_refl).
Defined.

Lemma percentage_width_alone_not_observed_witness :
  onResize squareRatio true (Some (Percentage "100%")) None None
    (measure (Some (Percentage "100%")) None {| width := None; height := None |}
       (Some (320, 240)))
    [(640, 480); (100, 100)]
  = {| width := Some 320; height := None |}.
Proof.
  exact (proj2 (proj2 (percentage_width_alone_not_observed squareRatio "100%"
                         {| width := None; height := None |} eq_refl))
           true 320 240 [(640, 480); (100, 100)]).
Defined.

End ImgPercentageCoverage.

(** ** The viewport test *)

Module ViewportCoverage.
Import Thumbhash Vocabulary.

(** X26.  [isInViewport] grows with the root margin: an element that is
    in the viewport for one margin is in it for every larger margin, and
    an element that overlaps or touches the window itself is in the
    viewport for every margin that is not negative. *)
Theorem viewport_margin_monotone (rect : DOMRect) (innerWidth innerHeight : Q)
    (margin margin' : Q) (Hmargin : margin <= margin') :
  (isInViewport rect innerWidth innerHeight margin = true ->
     isInViewport rect innerWidth innerHeight margin' = true)
  /\ (0 <= margin ->
      left rect <= innerWidth -> 0 <= right rect ->
      top rect <= innerHeight -> 0 <= bottom rect ->
      isInViewport rect innerWidth innerHeight margin = true).
Proof.
  unfold isInViewport. cbn zeta. rewrite !andb_true_iff, !Qle_bool_iff. split.
  - intros [[Hl Hr] [Ht Hb]]. repeat split; lra.
  - intros Hm Hl Hr Ht Hb. repeat split; lra.
Qed.

Lemma viewport_margin_monotone_witness :
  isInViewport belowTheFold 1024 768 0 = false
  /\ isInViewport belowTheFold 1024 768 100 = true
  /\ isInViewport belowTheFold 1024 768 250 = true.
Proof.
  split; [reflexivity|]. split; [reflexivity|].
  exact (proj1 (viewport_margin_monotone belowTheFold 1024 768 100 250
                  ltac:(discriminate)) eq_refl).
Defined.

End ViewportCoverage.
